(** * light: a composable HTTP router over net/http

    A shallow embedding of [router.go] and the proofs of its middleware
    composition and scoping model.

    The Go program works on heap objects: a [*routerContext] is a pointer,
    the [*http.ServeMux] it embeds is a pointer shared by a whole tree of
    contexts, and the [middlewares] field is a slice, that is a window
    (pointer, length, capacity) on a backing array that [append] may extend
    in place.  The embedding keeps all three, so that the statements about
    sharing and copying are statements about the heap and not about Rocq
    values. *)

From stdpp Require Import gmap strings list fin_maps.

(** ** The collaborators *)

(** What the router uses of package net/http.  [Handle] registers a handler
    for a pattern in a mux; it panics on patterns it refuses (malformed,
    conflicting), which is [None] here. *)
Class NetHTTP := {
  Handler : Type;
  HandlerFunc : Type;
  HandlerFunc_Handler : HandlerFunc → Handler;
  mux : Type;
  NewServeMux : mux;
  Handle : string → Handler → mux → option mux;
}.

(** What [append] does when the capacity does not suffice is the runtime's
    business: it allocates room for the elements and for [growslack] more. *)
Class GoRuntime := {
  growslack : nat → nat → nat;
}.

(** The constants [http.MethodGet], ... of net/http: the verbs themselves. *)
Definition MethodGet : string := "GET".
Definition MethodHead : string := "HEAD".
Definition MethodPost : string := "POST".
Definition MethodPut : string := "PUT".
Definition MethodPatch : string := "PATCH".
Definition MethodDelete : string := "DELETE".
Definition MethodConnect : string := "CONNECT".
Definition MethodOptions : string := "OPTIONS".
Definition MethodTrace : string := "TRACE".

(** ** The heap *)

Abbreviation loc := nat.

(** A slice header.  The nil slice has no array. *)
Record slice := Slice {
  array : option loc;
  len : nat;
  cap : nat;
}.

Definition nil_slice : slice := Slice None 0 0.

(** [type routerContext struct], field by field. *)
Record routerContext := RouterContext {
  pattern : string;
  ServeMux : loc;
  middlewares : slice;
}.

Definition with_middlewares (c : routerContext) (s : slice) : routerContext :=
  RouterContext (pattern c) (ServeMux c) s.

Section Memory.
Context `{NetHTTP, GoRuntime}.

(** A middleware is a [func(next http.Handler) http.Handler]: a function
    from handlers to handlers, which wraps its argument and does nothing
    else.  A value of the func type may be nil, which is [None]. *)
Definition Middleware : Type := Handler → Handler.
Definition func : Type := option Middleware.

Record Heap := MkHeap {
  contexts : gmap loc routerContext;
  arrays : gmap loc (list func);
  muxes : gmap loc mux;
}.

Definition empty_heap : Heap := MkHeap ∅ ∅ ∅.

(** ** Go computations: a heap is threaded through, [None] is a panic *)

Definition Go (A : Type) : Type := Heap → option (A * Heap).

Definition ret {A} (a : A) : Go A := λ σ, Some (a, σ).

Definition bind {A B} (m : Go A) (f : A → Go B) : Go B :=
  λ σ, match m σ with
       | Some (a, σ') => f a σ'
       | None => None
       end.

Definition panic {A} : Go A := λ _, None.

End Memory.

Notation "x <- m ;; f" := (bind m (λ x, f))
  (at level 100, m at next level, right associativity).
Notation "m ;;; f" := (bind m (λ _, f))
  (at level 100, right associativity).

Section Router.
Context `{NetHTTP, GoRuntime}.

(** *** Memory access *)

(** [*r]: a nil or dangling pointer panics. *)
Definition get (r : loc) : Go routerContext :=
  λ σ, c ← contexts σ !! r; Some (c, σ).

(** [&routerContext{...}] *)
Definition new (c : routerContext) : Go loc :=
  λ σ, let r := fresh (dom (contexts σ)) in
       Some (r, MkHeap (<[r := c]> (contexts σ)) (arrays σ) (muxes σ)).

(** [r.middlewares = s] *)
Definition set_middlewares (r : loc) (s : slice) : Go unit :=
  λ σ, c ← contexts σ !! r;
       Some (tt, MkHeap (<[r := with_middlewares c s]> (contexts σ))
                        (arrays σ) (muxes σ)).

(** [http.NewServeMux()] *)
Definition new_mux : Go loc :=
  λ σ, let p := fresh (dom (muxes σ)) in
       Some (p, MkHeap (contexts σ) (arrays σ) (<[p := NewServeMux]> (muxes σ))).

(** [p.Handle(key, h)] on the mux [p] points to. *)
Definition mux_Handle (p : loc) (key : string) (h : Handler) : Go unit :=
  λ σ, m ← muxes σ !! p;
       m' ← Handle key h m;
       Some (tt, MkHeap (contexts σ) (arrays σ) (<[p := m']> (muxes σ))).

(** *** Slices *)

(** The elements [s[0], ..., s[len(s)-1]], as [s...] passes them on. *)
Definition elems_of (σ : Heap) (s : slice) : option (list func) :=
  match array s with
  | None => Some []
  | Some a => take (len s) <$> arrays σ !! a
  end.

Definition elems (s : slice) : Go (list func) :=
  λ σ, xs ← elems_of σ s; Some (xs, σ).

(** [s[i]], bounds checked. *)
Definition index (s : slice) (i : nat) : Go func :=
  λ σ, if decide (i < len s) then
         a ← array s; cells ← arrays σ !! a; f ← cells !! i; Some (f, σ)
       else None.

(** [append(s, xs...)]: when the capacity suffices the elements are written
    behind the slice into its own backing array, and the result is a longer
    window on the same array; otherwise a new array receives the old elements
    and the new ones. *)
Definition append (s : slice) (xs : list func) : Go slice :=
  λ σ, let n := len s + length xs in
       if decide (n ≤ cap s) then
         match array s with
         | None => Some (Slice None n (cap s), σ)
         | Some a =>
             cells ← arrays σ !! a;
             Some (Slice (Some a) n (cap s),
                   MkHeap (contexts σ)
                          (<[a := list_inserts (len s) xs cells]> (arrays σ))
                          (muxes σ))
         end
       else
         old ← elems_of σ s;
         let c := n + growslack (cap s) n in
         let a := fresh (dom (arrays σ)) in
         Some (Slice (Some a) n c,
               MkHeap (contexts σ)
                      (<[a := old ++ xs ++ replicate (c - n) None]> (arrays σ))
                      (muxes σ)).

(** Calling a func value: nil panics.  The middleware called only wraps;
    module [Reentrant] below has the call that runs code on the heap. *)
Definition call (f : func) (h : Handler) : Go Handler :=
  match f with
  | Some m => ret (m h)
  | None => panic
  end.

(** ** router.go *)

Definition NewRouter : Go loc :=
  p <- new_mux ;;
  new (RouterContext "" p nil_slice).

Definition Use (r : loc) (mws : list func) : Go unit :=
  c <- get r ;;
  s <- append (middlewares c) mws ;;
  set_middlewares r s.

(** [nr.middlewares = append(nr.middlewares, r.middlewares...)], the
    statement the three derivations share. *)
Definition inherit (nr r : loc) : Go unit :=
  cn <- get nr ;;
  c <- get r ;;
  xs <- elems (middlewares c) ;;
  s <- append (middlewares cn) xs ;;
  set_middlewares nr s.

Definition With (r : loc) (mws : list func) : Go loc :=
  c <- get r ;;
  nr <- new (RouterContext (pattern c) (ServeMux c) nil_slice) ;;
  inherit nr r ;;;
  cn <- get nr ;;
  s <- append (middlewares cn) mws ;;
  set_middlewares nr s ;;;
  ret nr.

(** The [fn func(r Router)] of [Group] and [Route] is any Go code that is
    given the new context: a computation on the heap, which may panic. *)
Definition Group (r : loc) (fn : loc → Go unit) : Go loc :=
  c <- get r ;;
  nr <- new (RouterContext (pattern c) (ServeMux c) nil_slice) ;;
  inherit nr r ;;;
  fn nr ;;;
  ret nr.

Definition Route (r : loc) (pat : string) (fn : loc → Go unit) : Go loc :=
  c <- get r ;;
  nr <- new (RouterContext (pattern c +:+ pat) (ServeMux c) nil_slice) ;;
  inherit nr r ;;;
  fn nr ;;;
  ret nr.

(** The loop [for i := len(r.middlewares) - 1; i >= 0; i-- { h =
    r.middlewares[i](h) }], entered with [n] iterations to go, that is at
    [i = n - 1]. *)
Fixpoint wrap (r : loc) (n : nat) (h : Handler) : Go Handler :=
  match n with
  | 0 => ret h
  | S i =>
      c <- get r ;;
      f <- index (middlewares c) i ;;
      h' <- call f h ;;
      wrap r i h'
  end.

Definition Method (r : loc) (method pat : string) (h : Handler) : Go unit :=
  c <- get r ;;
  h <- wrap r (len (middlewares c)) h ;;
  let method := if decide (method ≠ "") then method +:+ " " else method in
  c <- get r ;;
  mux_Handle (ServeMux c) (method +:+ pattern c +:+ pat) h.

Definition MethodFunc (r : loc) (method pat : string) (h : HandlerFunc) : Go unit :=
  Method r method pat (HandlerFunc_Handler h).

Definition Connect (r : loc) (pat : string) (h : HandlerFunc) : Go unit :=
  MethodFunc r MethodConnect pat h.

Definition Delete (r : loc) (pat : string) (h : HandlerFunc) : Go unit :=
  MethodFunc r MethodDelete pat h.

Definition Get (r : loc) (pat : string) (h : HandlerFunc) : Go unit :=
  MethodFunc r MethodGet pat h.

Definition Head (r : loc) (pat : string) (h : HandlerFunc) : Go unit :=
  MethodFunc r MethodHead pat h.

Definition Options (r : loc) (pat : string) (h : HandlerFunc) : Go unit :=
  MethodFunc r MethodOptions pat h.

Definition Patch (r : loc) (pat : string) (h : HandlerFunc) : Go unit :=
  MethodFunc r MethodPatch pat h.

Definition Post (r : loc) (pat : string) (h : HandlerFunc) : Go unit :=
  MethodFunc r MethodPost pat h.

Definition Put (r : loc) (pat : string) (h : HandlerFunc) : Go unit :=
  MethodFunc r MethodPut pat h.

Definition Trace (r : loc) (pat : string) (h : HandlerFunc) : Go unit :=
  MethodFunc r MethodTrace pat h.

End Router.

(** ** What the statements speak of *)

Section Vocabulary.
Context `{NetHTTP, GoRuntime}.

(** The middleware chain of the context at [r]: the elements of its slice. *)
Definition chain (σ : Heap) (r : loc) : option (list func) :=
  c ← contexts σ !! r; elems_of σ (middlewares c).

Definition prefix (σ : Heap) (r : loc) : option string :=
  pattern <$> contexts σ !! r.

(** The match table the context at [r] registers in. *)
Definition table (σ : Heap) (r : loc) : option mux :=
  c ← contexts σ !! r; muxes σ !! ServeMux c.

(** [compose [m1; ...; mn] h] is [m1 (m2 (... (mn h)))]. *)
Definition compose (ms : list Middleware) (h : Handler) : Handler :=
  foldr (λ m next, m next) h ms.

(** The same over func values, of which a nil one panics when called. *)
Definition apply_funcs (fs : list func) (h : Handler) : option Handler :=
  foldr (λ f acc, next ← acc; m ← f; Some (m next)) (Some h) fs.

(** The chain applied from the last added to the first added. *)
Definition wrap_backwards (ms : list Middleware) (h : Handler) : Handler :=
  fold_left (λ next m, m next) (rev ms) h.

(** The key as the specification words it: the method and a delimiter in
    front of prefix and pattern, or prefix and pattern alone. *)
Definition spec_key (method pre pat : string) : string :=
  if decide (method = "") then pre +:+ pat
  else method +:+ " " +:+ (pre +:+ pat).

(** A slice header agrees with the heap: nil, or a window on an allocated
    array of as many cells as the capacity. *)
Definition slice_ok (σ : Heap) (s : slice) : Prop :=
  match array s with
  | None => len s = 0 ∧ cap s = 0
  | Some a => ∃ cells, arrays σ !! a = Some cells ∧
                       length cells = cap s ∧ len s ≤ cap s
  end.

(** The heaps the router builds: slices agree with the heap, every context
    points to a mux, and no two contexts look at the same backing array. *)
Record wf (σ : Heap) : Prop := {
  wf_slice r c : contexts σ !! r = Some c → slice_ok σ (middlewares c);
  wf_mux r c : contexts σ !! r = Some c → is_Some (muxes σ !! ServeMux c);
  wf_unshared r1 r2 c1 c2 a :
    contexts σ !! r1 = Some c1 → contexts σ !! r2 = Some c2 →
    array (middlewares c1) = Some a → array (middlewares c2) = Some a →
    r1 = r2;
}.

(** Nothing that was allocated in [σ] is different in [σ']. *)
Definition preserved (σ σ' : Heap) : Prop :=
  (∀ r c, contexts σ !! r = Some c → contexts σ' !! r = Some c) ∧
  (∀ a cells, arrays σ !! a = Some cells → arrays σ' !! a = Some cells) ∧
  muxes σ' = muxes σ.

(** No context is lost from [σ] to [σ']. *)
Definition grows (σ σ' : Heap) : Prop :=
  ∀ r, is_Some (contexts σ !! r) → is_Some (contexts σ' !! r).

(** The per-verb helpers, each with the verb of its name. *)
Definition verb_helpers
    : list ((loc → string → HandlerFunc → Go unit) * string) :=
  [ (Connect, "CONNECT"); (Delete, "DELETE"); (Get, "GET");
    (Head, "HEAD"); (Options, "OPTIONS"); (Patch, "PATCH");
    (Post, "POST"); (Put, "PUT"); (Trace, "TRACE") ].

(** The configuration code a client can write against the [Router]
    interface: calls of its methods in sequence, the functions handed to
    [Group] and [Route] being such code again. *)
Inductive configures : ∀ {A : Type}, Go A → Prop :=
  | cfg_ret {A} (a : A) : configures (ret a)
  | cfg_bind {A B} (m : Go A) (k : A → Go B) :
      configures m → (∀ a, configures (k a)) → configures (bind m k)
  | cfg_NewRouter : configures NewRouter
  | cfg_Use r mws : configures (Use r mws)
  | cfg_With r mws : configures (With r mws)
  | cfg_Group r fn : (∀ nr, configures (fn nr)) → configures (Group r fn)
  | cfg_Route r pat fn : (∀ nr, configures (fn nr)) → configures (Route r pat fn)
  | cfg_Method r method pat h : configures (Method r method pat h).

(** The registration calls on the context at [r] for the pattern [pat]. *)
Inductive registers (r : loc) (pat : string) : Go unit → Prop :=
  | reg_Method method h : registers r pat (Method r method pat h)
  | reg_MethodFunc method hf : registers r pat (MethodFunc r method pat hf)
  | reg_helper helper verb hf :
      (helper, verb) ∈ verb_helpers → registers r pat (helper r pat hf).

(** [Use] on [a] in [σ] returns, extends the chain of [a] and leaves the
    chain of [b] alone. *)
Definition Use_apart (σ : Heap) (a b : loc) : Prop :=
  ∀ xs, ∃ σ', Use a xs σ = Some (tt, σ') ∧
              chain σ' a = (λ old, old ++ xs) <$> chain σ a ∧
              chain σ' b = chain σ b.

(** From [σ] on, whatever configuration code runs next, the chains of [a]
    and [b] do not depend on each other. *)
Definition independent (σ : Heap) (a b : loc) : Prop :=
  ∀ A (m : Go A) x σ', configures m → m σ = Some (x, σ') →
    Use_apart σ' a b ∧ Use_apart σ' b a.

(** What C8 says of [op], which is [Group r] or [Route r pat], run in [σ]
    on a receiver [c] whose chain is [old], [p] being the prefix of the
    derived context: one context is added, at [nr], with that prefix, the
    receiver's mux and the receiver's chain; the function is run once, on
    [nr] and the heap [σ1] so extended, and [nr] is returned with the heap
    the function left; so that routes registered on what is returned are
    wrapped in the chain the function left there, for one a chain extended
    by [Use]. *)
Definition returns_configured (σ : Heap) (c : routerContext)
    (old : list func) (p : string) (op : (loc → Go unit) → Go loc) : Prop :=
  ∃ nr cn σ1,
    contexts σ !! nr = None ∧
    contexts σ1 = <[nr := cn]> (contexts σ) ∧
    pattern cn = p ∧ ServeMux cn = ServeMux c ∧
    chain σ1 nr = Some old ∧
    (∀ fn, op fn σ = match fn nr σ1 with
                     | Some (_, σ2) => Some (nr, σ2)
                     | None => None
                     end) ∧
    (∀ fn g σ2, (∀ x, configures (fn x)) → op fn σ = Some (g, σ2) →
       g = nr ∧ fn nr σ1 = Some (tt, σ2) ∧
       ∃ cg fs, contexts σ2 !! g = Some cg ∧ chain σ2 g = Some fs ∧
         ∀ method q h,
           Method g method q h σ2 =
             (x ← apply_funcs fs h;
              mux_Handle (ServeMux cg) (spec_key method (pattern cg) q) x σ2)) ∧
    (∀ xs, ∃ σ2,
       op (λ x, Use x xs) σ = Some (nr, σ2) ∧
       chain σ2 nr = Some (old ++ xs) ∧
       ∀ method q h,
         Method nr method q h σ2 =
           (x ← apply_funcs (old ++ xs) h;
            mux_Handle (ServeMux c) (spec_key method p q) x σ2)).

End Vocabulary.

(** ** A test double for net/http, and the tests of router_test.go *)

Module Demo.

(** A request carries its context values; the response is what the test
    handler prints: method, URL and the two context values. *)
Record Request := {
  req_method : string;
  req_url : string;
  req_ctx : list (string * nat);
}.

Record Response := {
  body_method : string;
  body_url : string;
  body_key1 : option nat;
  body_key2 : option nat;
}.

Fixpoint ctx_Value (ctx : list (string * nat)) (key : string) : option nat :=
  match ctx with
  | [] => None
  | (k, v) :: ctx => if decide (key = k) then Some v else ctx_Value ctx key
  end.

Fixpoint find (m : list (string * (Request → Response))) (key : string)
    : option (Request → Response) :=
  match m with
  | [] => None
  | (k, h) :: m => if decide (key = k) then Some h else find m key
  end.

(** A mux that records the registrations in order, and refuses the empty
    pattern and a pattern registered before. *)
#[export] Instance http : NetHTTP := {|
  Handler := Request → Response;
  HandlerFunc := Request → Response;
  HandlerFunc_Handler := λ h, h;
  mux := list (string * (Request → Response));
  NewServeMux := [];
  Handle := λ key h m,
    if decide (key = "") then None
    else if decide (key ∈ m.*1) then None
    else Some (m ++ [(key, h)]);
|}.

(** A runtime that doubles the room on reallocation. *)
#[export] Instance runtime : GoRuntime := {| growslack := λ _ n, n |}.

Definition ctxKey1 : string := "key1".
Definition ctxKey2 : string := "key2".

Definition handler : Request → Response :=
  λ r, {| body_method := req_method r;
          body_url := req_url r;
          body_key1 := ctx_Value (req_ctx r) ctxKey1;
          body_key2 := ctx_Value (req_ctx r) ctxKey2 |}.

Definition middlewareWithKey (key : string) : Middleware :=
  λ next r,
    let v := default 0 (ctx_Value (req_ctx r) key) in
    next {| req_method := req_method r;
            req_url := req_url r;
            req_ctx := (key, S v) :: req_ctx r |}.

Definition mw1 : func := Some (middlewareWithKey ctxKey1).
Definition mw2 : func := Some (middlewareWithKey ctxKey2).

(** Dispatch of the double: the handler registered for the method and the
    path, if any. *)
Definition ServeHTTP (r : loc) (method url : string) : Go (option Response) :=
  λ σ, c ← contexts σ !! r;
       m ← muxes σ !! ServeMux c;
       Some (find m (method +:+ " " +:+ url) ≫= λ h,
               Some (h {| req_method := method; req_url := url; req_ctx := [] |}),
             σ).

Definition TestRouter_With : Go (list (option Response)) :=
  r <- NewRouter ;;
  a <- With r [mw1; mw2] ;;
  Get a "/v1/health" handler ;;;
  b <- With r [mw2] ;;
  Get b "/v2/health" handler ;;;
  x <- ServeHTTP r "GET" "/v1/health" ;;
  y <- ServeHTTP r "GET" "/v2/health" ;;
  ret [x; y].

Definition TestRouter_Use : Go (list (option Response)) :=
  r <- NewRouter ;;
  Get r "/v1/health" handler ;;;
  Use r [mw1; mw2] ;;;
  Get r "/v2/health" handler ;;;
  x <- ServeHTTP r "GET" "/v1/health" ;;
  y <- ServeHTTP r "GET" "/v2/health" ;;
  ret [x; y].

Definition TestRouter_Group : Go (list (option Response)) :=
  r <- NewRouter ;;
  Use r [mw1; mw2] ;;;
  group1 <- Group r (λ r, Use r [mw1] ;;; Get r "/v1/health" handler) ;;
  Get group1 "/v2/health" handler ;;;
  Get r "/v3/health" handler ;;;
  x <- ServeHTTP r "GET" "/v1/health" ;;
  y <- ServeHTTP r "GET" "/v2/health" ;;
  z <- ServeHTTP r "GET" "/v3/health" ;;
  ret [x; y; z].

Definition TestRouter_Route : Go (list (option Response)) :=
  r <- NewRouter ;;
  Use r [mw1; mw2] ;;;
  v1Route <- Route r "/v1" (λ r, Use r [mw1] ;;; Get r "/health" handler) ;;
  Get v1Route "/ping" handler ;;;
  x <- ServeHTTP r "GET" "/v1/health" ;;
  y <- ServeHTTP r "GET" "/v1/ping" ;;
  z <- ServeHTTP r "GET" "/health" ;;
  ret [x; y; z].

Definition TestRouter_HttpMethods : Go (list (option Response)) :=
  r <- NewRouter ;;
  Connect r "/user" handler ;;;
  Delete r "/user" handler ;;;
  Get r "/user" handler ;;;
  Head r "/user" handler ;;;
  Options r "/user" handler ;;;
  Patch r "/user" handler ;;;
  Post r "/user" handler ;;;
  Put r "/user" handler ;;;
  Trace r "/user" handler ;;;
  a <- ServeHTTP r "CONNECT" "/user" ;;
  b <- ServeHTTP r "DELETE" "/user" ;;
  c <- ServeHTTP r "GET" "/user" ;;
  d <- ServeHTTP r "HEAD" "/user" ;;
  e <- ServeHTTP r "OPTIONS" "/user" ;;
  f <- ServeHTTP r "PATCH" "/user" ;;
  g <- ServeHTTP r "POST" "/user" ;;
  h <- ServeHTTP r "PUT" "/user" ;;
  i <- ServeHTTP r "TRACE" "/user" ;;
  ret [a; b; c; d; e; f; g; h; i].

(** A handler that answers with the keys of the context values it finds,
    the last one set first. *)
Definition order_handler : Request → Response :=
  λ r, {| body_method := req_method r;
          body_url := String.concat "," (fst <$> req_ctx r);
          body_key1 := None;
          body_key2 := None |}.

Definition order_test : Go (option Response) :=
  r <- NewRouter ;;
  a <- With r [mw1; mw2] ;;
  Get a "/order" order_handler ;;;
  ServeHTTP r "GET" "/order".

(** A heap the router never builds: the contexts at 0 and 1 look at the
    same array. *)
Definition shared_heap : Heap :=
  MkHeap (<[1 := RouterContext "" 0 (Slice (Some 0) 3 4)]>
            (<[0 := RouterContext "" 0 (Slice (Some 0) 2 4)]> ∅))
         (<[0 := [mw1; mw2; mw1; None]]> ∅)
         (<[0 := []]> ∅).

Definition body (key1 key2 : option nat) (url : string) : option Response :=
  Some {| body_method := "GET"; body_url := url;
          body_key1 := key1; body_key2 := key2 |}.

(** The heap after [r := NewRouter(); r.Use(mw1, mw2)]: the root is at 0. *)
Definition heap0 : Heap :=
  default empty_heap (snd <$> (r <- NewRouter ;; Use r [mw1; mw2]) empty_heap).

(** The heap after one more call, [r.Get("/x", handler)]. *)
Definition heap1 : Heap :=
  default empty_heap (snd <$> Get 0 "/x" handler heap0).

(** The heap after [r.Use(mw1)] in [heap0]. *)
Definition heap2 : Heap :=
  default empty_heap (snd <$> Use 0 [mw1] heap0).

(** The heap after [a := r.With(mw1)] in [heap0], where [a] is at 1, and
    after [a.Get("/x", handler)] then. *)
Definition heap4 : Heap :=
  default empty_heap (snd <$> With 0 [mw1] heap0).

Definition heap5 : Heap :=
  default empty_heap (snd <$> Get 1 "/x" handler heap4).

(** Its root context, and the two middlewares of its chain. *)
Definition root : routerContext := RouterContext "" 0 (Slice (Some 0) 2 4).
Definition k1 : Middleware := middlewareWithKey ctxKey1.
Definition k2 : Middleware := middlewareWithKey ctxKey2.

End Demo.

(** ** What configuration code does over time *)

Section Histories.
Context `{NetHTTP, GoRuntime}.

(** One call of [Handle] leads from [m] to [m']. *)
Definition Handle_step (m m' : mux) : Prop :=
  ∃ key h, Handle key h m = Some m'.

(** Calls of [Handle], and nothing else, lead from [m] to [m']. *)
Definition handled : mux → mux → Prop := rtc Handle_step.

(** The muxes a computation leaves, if it returns. *)
Definition tables {A} (x : option (A * Heap)) : option (gmap loc mux) :=
  (λ y, muxes (snd y)) <$> x.

(** Every context of [σ] is in [σ'] with its prefix and its mux pointer. *)
Definition fields_kept (σ σ' : Heap) : Prop :=
  ∀ r c, contexts σ !! r = Some c →
    ∃ c', contexts σ' !! r = Some c' ∧
          pattern c' = pattern c ∧ ServeMux c' = ServeMux c.

(** Every chain of [σ] is in [σ'] the start of the chain of the same
    context. *)
Definition chains_extended (σ σ' : Heap) : Prop :=
  ∀ r old, chain σ r = Some old → ∃ more, chain σ' r = Some (old ++ more).

(** Every mux of [σ] is in [σ'], and holds what calls of [Handle] made of
    its contents. *)
Definition tables_handled (σ σ' : Heap) : Prop :=
  ∀ p m, muxes σ !! p = Some m → ∃ m', muxes σ' !! p = Some m' ∧ handled m m'.

Definition history (σ σ' : Heap) : Prop :=
  fields_kept σ σ' ∧ chains_extended σ σ' ∧ tables_handled σ σ'.

End Histories.

(** ** Middleware that runs code when it is called *)

(** Above, calling a middleware returns the wrapped handler and does nothing
    else.  In Go the call at [h = r.middlewares[i](h)] runs the code of the
    caller, which may call back into the router.  Here the call of a
    middleware [m] on [h] first runs [effect m h] on the heap and then
    returns [m h]; [Method], [MethodFunc] and the helpers are router.go's
    again, with this call.  Two func values that wrap alike are taken to run
    alike. *)
Module Reentrant.
Section Effects.
Context `{NetHTTP, GoRuntime}.
Variable effect : Middleware → Handler → Go unit.

Definition call (f : func) (h : Handler) : Go Handler :=
  match f with
  | Some m => effect m h ;;; ret (m h)
  | None => panic
  end.

Fixpoint wrap (r : loc) (n : nat) (h : Handler) : Go Handler :=
  match n with
  | 0 => ret h
  | S i =>
      c <- get r ;;
      f <- index (middlewares c) i ;;
      h' <- call f h ;;
      wrap r i h'
  end.

Definition Method (r : loc) (method pat : string) (h : Handler) : Go unit :=
  c <- get r ;;
  h <- wrap r (len (middlewares c)) h ;;
  let method := if decide (method ≠ "") then method +:+ " " else method in
  c <- get r ;;
  mux_Handle (ServeMux c) (method +:+ pattern c +:+ pat) h.

Definition MethodFunc (r : loc) (method pat : string) (h : HandlerFunc) : Go unit :=
  Method r method pat (HandlerFunc_Handler h).

Definition Connect (r : loc) (pat : string) (h : HandlerFunc) : Go unit :=
  MethodFunc r MethodConnect pat h.

Definition Delete (r : loc) (pat : string) (h : HandlerFunc) : Go unit :=
  MethodFunc r MethodDelete pat h.

Definition Get (r : loc) (pat : string) (h : HandlerFunc) : Go unit :=
  MethodFunc r MethodGet pat h.

Definition Head (r : loc) (pat : string) (h : HandlerFunc) : Go unit :=
  MethodFunc r MethodHead pat h.

Definition Options (r : loc) (pat : string) (h : HandlerFunc) : Go unit :=
  MethodFunc r MethodOptions pat h.

Definition Patch (r : loc) (pat : string) (h : HandlerFunc) : Go unit :=
  MethodFunc r MethodPatch pat h.

Definition Post (r : loc) (pat : string) (h : HandlerFunc) : Go unit :=
  MethodFunc r MethodPost pat h.

Definition Put (r : loc) (pat : string) (h : HandlerFunc) : Go unit :=
  MethodFunc r MethodPut pat h.

Definition Trace (r : loc) (pat : string) (h : HandlerFunc) : Go unit :=
  MethodFunc r MethodTrace pat h.

Definition verb_helpers
    : list ((loc → string → HandlerFunc → Go unit) * string) :=
  [ (Connect, "CONNECT"); (Delete, "DELETE"); (Get, "GET");
    (Head, "HEAD"); (Options, "OPTIONS"); (Patch, "PATCH");
    (Post, "POST"); (Put, "PUT"); (Trace, "TRACE") ].

(** The registration calls on the context at [r] for the pattern [pat]. *)
Inductive registers (r : loc) (pat : string) : Go unit → Prop :=
  | reg_Method method h : registers r pat (Method r method pat h)
  | reg_MethodFunc method hf : registers r pat (MethodFunc r method pat hf)
  | reg_helper helper verb hf :
      (helper, verb) ∈ verb_helpers → registers r pat (helper r pat hf).

(** Calling [m], if it returns, leaves the heap as it is. *)
Definition harmless (m : Middleware) : Prop :=
  ∀ h σ u σ', effect m h σ = Some (u, σ') → σ' = σ.

(** Calling [m] returns and leaves the heap as it is: [m] only wraps. *)
Definition quiet (m : Middleware) : Prop :=
  ∀ h σ, effect m h σ = Some (tt, σ).

End Effects.
End Reentrant.

(** A middleware that adds itself to the router at 0 when it is called,
    [evil = func(next) { r.Use(evil); return next }], and the heap after
    [r := NewRouter(); r.Use(evil)]. *)
Module ReentrantDemo.
Import Demo.

Definition evil : Middleware := λ next, next.

Definition effect : Middleware → Handler → Go unit :=
  λ _ _, Use 0 [Some evil].

Definition heapE : Heap :=
  default empty_heap (snd <$> (r <- NewRouter ;; Use r [Some evil]) empty_heap).

(** The heap after [r.Get("/x", handler)] then. *)
Definition heapE' : Heap :=
  default empty_heap (snd <$> Reentrant.Get effect 0 "/x" handler heapE).

(** Middlewares that run nothing. *)
Definition no_effect : Middleware → Handler → Go unit := λ _ _, ret tt.

End ReentrantDemo.

(** ** Proofs *)

Section Proofs.
Context `{NetHTTP, GoRuntime}.
Implicit Types (σ : Heap) (r nr : loc) (s : slice) (c : routerContext).
Implicit Types (xs mws : list func) (ms : list Middleware) (h : Handler).

(** *** Running a computation step by step *)

Lemma bind_eq {A B} (m : Go A) (k : A → Go B) σ a σ' :
  m σ = Some (a, σ') → bind m k σ = k a σ'.
Proof. unfold bind. by intros ->. Qed.

Lemma get_eq σ r c : contexts σ !! r = Some c → get r σ = Some (c, σ).
Proof. unfold get. by intros ->. Qed.

Lemma set_middlewares_eq σ r c s :
  contexts σ !! r = Some c →
  set_middlewares r s σ =
    Some (tt, MkHeap (<[r := with_middlewares c s]> (contexts σ))
                     (arrays σ) (muxes σ)).
Proof. unfold set_middlewares. by intros ->. Qed.

(** *** Slices *)

Lemma take_inserts_behind {A} (l k : list A) i :
  i + length k ≤ length l →
  take (i + length k) (list_inserts i k l) = take i l ++ k.
Proof.
  intros Hle. apply list_eq. intros j.
  destruct (decide (j < i)) as [Hlt|Hge].
  - rewrite lookup_take_lt by lia.
    rewrite list_lookup_inserts_lt by done.
    rewrite lookup_app_l by (rewrite length_take; lia).
    by rewrite lookup_take_lt.
  - destruct (decide (j < i + length k)) as [Hin|Hout].
    + rewrite lookup_take_lt by lia.
      rewrite list_lookup_inserts by lia.
      rewrite lookup_app_r by (rewrite length_take; lia).
      rewrite length_take. f_equal. lia.
    + rewrite lookup_take_ge by lia. symmetry.
      apply lookup_ge_None. rewrite length_app, length_take. lia.
Qed.

Lemma slice_ok_elems σ s :
  slice_ok σ s → ∃ old, elems_of σ s = Some old ∧ length old = len s.
Proof.
  unfold slice_ok, elems_of. destruct (array s) as [a|].
  - intros (cells & -> & Hlen & Hle). eexists. split; [done|].
    rewrite length_take. lia.
  - intros [-> _]. by exists [].
Qed.

(** What [append] does to the heap: the result holds the old elements and
    the new ones, contexts and muxes are as they were, and the only array
    written is the one the result looks at, which is the slice's own or a
    new one. *)
Lemma append_spec σ s xs :
  slice_ok σ s →
  ∃ s' σ' old,
    append s xs σ = Some (s', σ') ∧
    elems_of σ s = Some old ∧
    contexts σ' = contexts σ ∧ muxes σ' = muxes σ ∧
    slice_ok σ' s' ∧
    elems_of σ' s' = Some (old ++ xs) ∧
    (array s' = array s ∨ ∃ a, array s' = Some a ∧ arrays σ !! a = None) ∧
    (∀ b, array s' ≠ Some b → arrays σ' !! b = arrays σ !! b) ∧
    (∀ b cells, arrays σ !! b = Some cells →
       ∃ cells', arrays σ' !! b = Some cells' ∧ length cells' = length cells).
Proof.
  intros Hok. unfold append.
  destruct (decide (len s + length xs ≤ cap s)) as [Hfit|Hgrow].
  - (* in place *)
    unfold slice_ok in Hok. unfold elems_of at 1 2.
    destruct (array s) as [a|] eqn:Harr.
    + destruct Hok as (cells & Hcells & Hlen & Hle). rewrite Hcells. simpl.
      eexists _, _, _. split; [done|]. split; [done|].
      split; [done|]. split; [done|].
      split.
      { unfold slice_ok. simpl. eexists. split; [apply lookup_insert_eq|].
        rewrite length_inserts. split; [done|lia]. }
      split.
      { unfold elems_of. simpl. rewrite lookup_insert_eq. simpl. f_equal.
        apply take_inserts_behind. lia. }
      split; [by left|]. split.
      { intros b Hb. simpl in *. apply lookup_insert_ne. by intros ->. }
      intros b cells' Hb. simpl. destruct (decide (a = b)) as [->|Hne].
      * rewrite lookup_insert_eq. eexists. split; [done|].
        rewrite length_inserts. congruence.
      * rewrite lookup_insert_ne by done. eauto.
    + destruct Hok as [Hl Hc].
      assert (length xs = 0) as Hxs by lia.
      apply nil_length_inv in Hxs as ->.
      exists (Slice None (len s + 0) (cap s)), σ, []. simpl.
      split; [done|]. split; [done|]. split; [done|]. split; [done|].
      split; [unfold slice_ok; simpl; lia|].
      split; [done|]. split; [by left|]. split; [done|]. eauto.
  - (* a new array *)
    destruct (slice_ok_elems σ s Hok) as (old & Hold & Hlen).
    rewrite Hold. simpl.
    set (n := len s + length xs). set (c := n + growslack (cap s) n).
    set (a := fresh (dom (arrays σ))).
    assert (arrays σ !! a = None) as Ha.
    { apply not_elem_of_dom. apply is_fresh. }
    eexists _, _, _. split; [done|]. split; [done|].
    split; [done|]. split; [done|].
    split.
    { unfold slice_ok. simpl. eexists. split; [apply lookup_insert_eq|].
      rewrite !length_app, length_replicate. unfold c, n. lia. }
    split.
    { unfold elems_of. simpl. rewrite lookup_insert_eq. simpl. f_equal.
      rewrite app_assoc. apply take_app_length'.
      rewrite length_app. unfold n. lia. }
    split; [right; eauto|]. split.
    { intros b Hb. simpl in *. apply lookup_insert_ne. by intros ->. }
    intros b cells Hb. simpl. exists cells. split; [|done].
    rewrite lookup_insert_ne; [done|]. intros ->. congruence.
Qed.

Lemma slice_ok_index σ s fs i :
  slice_ok σ s → elems_of σ s = Some fs → i < len s →
  ∃ f, fs !! i = Some f ∧ index s i σ = Some (f, σ).
Proof.
  unfold slice_ok, elems_of, index. intros Hok Hfs Hi.
  rewrite decide_True by done.
  destruct (array s) as [a|]; [|lia].
  destruct Hok as (cells & Hcells & Hlen & Hle).
  simpl. rewrite Hcells in Hfs |- *. simpl in *. injection Hfs as <-.
  destruct (lookup_lt_is_Some_2 cells i) as [f Hf]; [lia|].
  exists f. rewrite lookup_take_lt by done. by rewrite Hf.
Qed.

(** Another slice, on another array, is not touched by an [append]. *)
Lemma elems_of_frame σ σ' t :
  (∀ b, array t = Some b → arrays σ' !! b = arrays σ !! b) →
  elems_of σ' t = elems_of σ t.
Proof.
  unfold elems_of. destruct (array t) as [b|]; [|done].
  intros Hb. by rewrite Hb.
Qed.

Lemma slice_ok_frame σ σ' t :
  (∀ b, array t = Some b → arrays σ' !! b = arrays σ !! b) →
  slice_ok σ t → slice_ok σ' t.
Proof.
  unfold slice_ok. destruct (array t) as [b|]; [|done].
  intros Hb. by rewrite Hb.
Qed.

(** *** The invariant *)

Lemma wf_empty : wf empty_heap.
Proof. split; intros *; simpl; by rewrite lookup_empty. Qed.

Lemma wf_chain σ r c :
  wf σ → contexts σ !! r = Some c →
  ∃ fs, chain σ r = Some fs ∧ elems_of σ (middlewares c) = Some fs ∧
        length fs = len (middlewares c).
Proof.
  intros Hwf Hr. destruct (slice_ok_elems σ (middlewares c)) as (fs & Hfs & Hlen).
  { by eapply wf_slice. }
  exists fs. unfold chain. rewrite Hr. simpl. done.
Qed.

(** The array a new result of [append] looks at belongs to no other
    context. *)
Lemma append_result_unshared σ r c s' r' c' b :
  wf σ → contexts σ !! r = Some c → contexts σ !! r' = Some c' → r' ≠ r →
  (array s' = array (middlewares c) ∨
   ∃ a, array s' = Some a ∧ arrays σ !! a = None) →
  array (middlewares c') = Some b → array s' ≠ Some b.
Proof.
  intros Hwf Hr Hr' Hne [Heq|(a & Ha & Hfresh)] Hb Hs'.
  - apply Hne. eapply (wf_unshared σ Hwf r' r); eauto. congruence.
  - assert (a = b) as -> by congruence.
    pose proof (wf_slice σ Hwf r' c' Hr') as Hok. unfold slice_ok in Hok.
    rewrite Hb in Hok. destruct Hok as (cells & Hcells & _). congruence.
Qed.

(** *** Use *)

Lemma Use_spec σ r c mws :
  wf σ → contexts σ !! r = Some c →
  ∃ s' σ' old,
    Use r mws σ = Some (tt, σ') ∧
    elems_of σ (middlewares c) = Some old ∧
    contexts σ' = <[r := with_middlewares c s']> (contexts σ) ∧
    muxes σ' = muxes σ ∧
    elems_of σ' s' = Some (old ++ mws) ∧
    wf σ' ∧
    (∀ r', r' ≠ r → chain σ' r' = chain σ r') ∧
    (array s' = array (middlewares c) ∨
     ∃ a, array s' = Some a ∧ arrays σ !! a = None) ∧
    (∀ b, array s' ≠ Some b → arrays σ' !! b = arrays σ !! b).
Proof.
  intros Hwf Hr.
  destruct (append_spec σ (middlewares c) mws) as
    (s' & σ1 & old & Happ & Hold & Hctx & Hmux & Hok & Hnew & Hwhere & Hframe & Hkeep).
  { by eapply wf_slice. }
  assert (∀ r' c' b, contexts σ !! r' = Some c' → r' ≠ r →
            array (middlewares c') = Some b →
            arrays σ1 !! b = arrays σ !! b) as Hother.
  { intros r' c' b Hr' Hne Hb. apply Hframe.
    by apply (append_result_unshared σ r c s' r' c' b). }
  exists s', (MkHeap (<[r := with_middlewares c s']> (contexts σ1))
                     (arrays σ1) (muxes σ1)), old.
  split.
  { unfold Use. rewrite (bind_eq _ _ _ _ _ (get_eq σ r c Hr)).
    rewrite (bind_eq _ _ _ _ _ Happ).
    apply set_middlewares_eq. by rewrite Hctx. }
  split; [done|]. simpl. split; [by rewrite Hctx|]. split; [done|].
  split; [done|]. split; [|split; [|by split]].
  - split; simpl; rewrite Hctx.
    + intros r' c' Hr'. destruct (decide (r' = r)) as [->|Hne].
      * rewrite lookup_insert_eq in Hr'. injection Hr' as <-. done.
      * rewrite lookup_insert_ne in Hr' by done.
        eapply slice_ok_frame; [|by eapply wf_slice].
        intros b Hb. simpl. eauto.
    + intros r' c' Hr'. rewrite Hmux. destruct (decide (r' = r)) as [->|Hne].
      * rewrite lookup_insert_eq in Hr'. injection Hr' as <-. simpl.
        by eapply wf_mux.
      * rewrite lookup_insert_ne in Hr' by done. by eapply wf_mux.
    + intros r1 r2 c1 c2 a Hr1 Hr2 Ha1 Ha2.
      destruct (decide (r1 = r)) as [->|Hne1];
        destruct (decide (r2 = r)) as [->|Hne2]; [done|..].
      * rewrite lookup_insert_eq in Hr1. injection Hr1 as <-.
        rewrite lookup_insert_ne in Hr2 by done. simpl in Ha1.
        exfalso. eapply (append_result_unshared σ r c s' r2 c2 a); eauto.
      * rewrite lookup_insert_eq in Hr2. injection Hr2 as <-.
        rewrite lookup_insert_ne in Hr1 by done. simpl in Ha2.
        exfalso. eapply (append_result_unshared σ r c s' r1 c1 a); eauto.
      * rewrite lookup_insert_ne in Hr1, Hr2 by done.
        eapply (wf_unshared σ Hwf); eauto.
  - intros r' Hne. unfold chain. simpl. rewrite Hctx.
    rewrite lookup_insert_ne by done.
    destruct (contexts σ !! r') as [c'|] eqn:Hr'; [|done]. simpl.
    apply elems_of_frame. intros b Hb. simpl. eauto.
Qed.

(** *** Derivation *)

Lemma bind_assoc {A B C} (m : Go A) (f : A → Go B) (g : B → Go C) σ :
  bind (bind m f) g σ = bind m (λ a, bind (f a) g) σ.
Proof. unfold bind. by destruct (m σ) as [[a σ']|]. Qed.

Lemma fresh_context σ : contexts σ !! fresh (dom (contexts σ)) = None.
Proof. apply not_elem_of_dom, is_fresh. Qed.

(** The first three statements of [With], [Group] and [Route]: the new
    context is at a new address, points to the receiver's mux, and looks at
    the receiver's elements through an array of its own; nothing that
    existed is written. *)
Lemma derive_spec σ r c p :
  wf σ → contexts σ !! r = Some c →
  ∃ nr s σ1 old,
    contexts σ !! nr = None ∧
    elems_of σ (middlewares c) = Some old ∧
    contexts σ1 = <[nr := RouterContext p (ServeMux c) s]> (contexts σ) ∧
    elems_of σ1 s = Some old ∧
    wf σ1 ∧
    preserved σ σ1 ∧
    (∀ r', r' ≠ nr → chain σ1 r' = chain σ r') ∧
    (∀ a, array s = Some a → arrays σ !! a = None) ∧
    ∀ A (k : loc → Go A),
      (nr <- new (RouterContext p (ServeMux c) nil_slice) ;;
       inherit nr r ;;; k nr) σ = k nr σ1.
Proof.
  intros Hwf Hr.
  set (nr := fresh (dom (contexts σ))).
  set (cn := RouterContext p (ServeMux c) nil_slice).
  set (σa := MkHeap (<[nr := cn]> (contexts σ)) (arrays σ) (muxes σ)).
  assert (contexts σ !! nr = None) as Hnr by apply fresh_context.
  assert (r ≠ nr) as Hne by congruence.
  destruct (wf_chain σ r c Hwf Hr) as (old & _ & Hold & _).
  assert (wf σa) as Hwfa.
  { split; simpl.
    - intros r' c' Hr'. destruct (decide (r' = nr)) as [->|Hne'].
      + rewrite lookup_insert_eq in Hr'. injection Hr' as <-. by split.
      + rewrite lookup_insert_ne in Hr' by done.
        by apply (wf_slice σ Hwf r' c').
    - intros r' c' Hr'. destruct (decide (r' = nr)) as [->|Hne'].
      + rewrite lookup_insert_eq in Hr'. injection Hr' as <-.
        by apply (wf_mux σ Hwf r c).
      + rewrite lookup_insert_ne in Hr' by done. by apply (wf_mux σ Hwf r' c').
    - intros r1 r2 c1 c2 a Hr1 Hr2 Ha1 Ha2.
      destruct (decide (r1 = nr)) as [->|Hne1].
      { rewrite lookup_insert_eq in Hr1. by injection Hr1 as <-. }
      destruct (decide (r2 = nr)) as [->|Hne2].
      { rewrite lookup_insert_eq in Hr2. by injection Hr2 as <-. }
      rewrite lookup_insert_ne in Hr1, Hr2 by done.
      by apply (wf_unshared σ Hwf r1 r2 c1 c2 a). }
  assert (contexts σa !! nr = Some cn) as Hcn by apply lookup_insert_eq.
  destruct (Use_spec σa nr cn old Hwfa Hcn) as
    (s & σ1 & old' & HUse & Hold' & Hctx & Hmux & Hs & Hwf1 & Hchain & Hwhere & Hframe).
  simpl in Hold'. injection Hold' as <-. simpl in Hs.
  assert (∀ a, array s = Some a → arrays σ !! a = None) as Hown.
  { intros a Ha. destruct Hwhere as [Heq|(a' & Ha' & Hfresh)].
    - simpl in Heq. congruence.
    - simpl in Hfresh. congruence. }
  exists nr, s, σ1, old.
  split; [done|]. split; [done|]. split.
  { rewrite Hctx. simpl. apply insert_insert_eq. }
  split; [done|]. split; [done|]. split.
  { split; [|split; [|done]].
    - intros r' c' Hr'. rewrite Hctx. simpl.
      rewrite !lookup_insert_ne by congruence. done.
    - intros a cells Ha. rewrite Hframe; [done|].
      intros Hs'. apply Hown in Hs'. congruence. }
  split.
  { intros r' Hne'. rewrite (Hchain r' Hne'). unfold chain. simpl.
    by rewrite lookup_insert_ne. }
  split; [done|].
  intros A k.
  assert (new cn σ = Some (nr, σa)) as Hnew by done.
  rewrite (bind_eq _ _ _ _ _ Hnew).
  apply (bind_eq (inherit nr r) (λ _, k nr) σa tt σ1).
  rewrite <- HUse. unfold inherit, Use.
  rewrite !(bind_eq _ _ _ _ _ (get_eq σa nr cn Hcn)).
  assert (contexts σa !! r = Some c) as Hra.
  { simpl. by rewrite lookup_insert_ne. }
  rewrite (bind_eq _ _ _ _ _ (get_eq σa r c Hra)).
  assert (elems (middlewares c) σa = Some (old, σa)) as Hel.
  { unfold elems.
    replace (elems_of σa (middlewares c)) with (elems_of σ (middlewares c)) by done.
    by rewrite Hold. }
  by rewrite (bind_eq _ _ _ _ _ Hel).
Qed.

(** The last three statements of [With] are those of [Use] on the new
    context. *)
Lemma Use_then {A} r mws (k : Go A) σ :
  (c <- get r ;; s <- append (middlewares c) mws ;; set_middlewares r s ;;; k) σ
  = (Use r mws ;;; k) σ.
Proof.
  unfold Use, bind. destruct (get r σ) as [[c heap0]|]; [|done].
  by destruct (append (middlewares c) mws heap0) as [[s σ1]|].
Qed.

Lemma With_spec σ r c mws :
  wf σ → contexts σ !! r = Some c →
  ∃ nr s σ' old,
    With r mws σ = Some (nr, σ') ∧
    contexts σ !! nr = None ∧
    elems_of σ (middlewares c) = Some old ∧
    contexts σ' = <[nr := RouterContext (pattern c) (ServeMux c) s]> (contexts σ) ∧
    elems_of σ' s = Some (old ++ mws) ∧
    wf σ' ∧
    preserved σ σ' ∧
    (∀ r', r' ≠ nr → chain σ' r' = chain σ r') ∧
    (∀ a, array s = Some a → arrays σ !! a = None).
Proof.
  intros Hwf Hr.
  destruct (derive_spec σ r c (pattern c) Hwf Hr) as
    (nr & s1 & σ1 & old & Hnr & Hold & Hctx1 & Hs1 & Hwf1 & Hpres1 & Hchain1 & Hown & Hrun).
  set (cn := RouterContext (pattern c) (ServeMux c) s1).
  assert (contexts σ1 !! nr = Some cn) as Hcn.
  { rewrite Hctx1. apply lookup_insert_eq. }
  destruct (Use_spec σ1 nr cn mws Hwf1 Hcn) as
    (s & σ' & old' & HUse & Hold' & Hctx & Hmux & Hs & Hwf' & Hchain & Hwhere & Hframe).
  simpl in Hold'. rewrite Hs1 in Hold'. injection Hold' as <-.
  exists nr, s, σ', old.
  split.
  { unfold With. rewrite (bind_eq _ _ _ _ _ (get_eq σ r c Hr)).
    rewrite Hrun. rewrite Use_then. by rewrite (bind_eq _ _ _ _ _ HUse). }
  split; [done|]. split; [done|]. split.
  { rewrite Hctx, Hctx1. apply insert_insert_eq. }
  split; [done|]. split; [done|]. split.
  - destruct Hpres1 as (Hc1 & Ha1 & Hm1).
    split; [|split; [|congruence]].
    + intros r' c' Hr'. rewrite Hctx. rewrite lookup_insert_ne by congruence.
      by apply Hc1.
    + intros a cells Ha. rewrite Hframe; [by apply Ha1|]. intros Hsa.
      destruct Hwhere as [Heq|(a' & Ha' & Hfresh)].
      * simpl in Heq. rewrite Hsa in Heq. symmetry in Heq.
        apply Hown in Heq. congruence.
      * apply Ha1 in Ha. congruence.
  - split; [intros r' Hne; rewrite (Hchain r' Hne); by apply Hchain1|].
    intros a Ha. destruct Hwhere as [Heq|(a' & Ha' & Hfresh)].
    + apply Hown. simpl in Heq. congruence.
    + assert (a' = a) as -> by congruence.
      destruct (arrays σ !! a) as [cells|] eqn:Hcells; [|done].
      destruct Hpres1 as (_ & Ha1 & _). apply Ha1 in Hcells. congruence.
Qed.

(** [Group] and [Route] derive, hand the new context to [fn], and return
    it. *)
Lemma Group_run σ r c fn :
  contexts σ !! r = Some c →
  Group r fn σ =
    (nr <- new (RouterContext (pattern c) (ServeMux c) nil_slice) ;;
     inherit nr r ;;; fn nr ;;; ret nr) σ.
Proof. intros Hr. unfold Group. by rewrite (bind_eq _ _ _ _ _ (get_eq σ r c Hr)). Qed.

Lemma Route_run σ r c pat fn :
  contexts σ !! r = Some c →
  Route r pat fn σ =
    (nr <- new (RouterContext (pattern c +:+ pat) (ServeMux c) nil_slice) ;;
     inherit nr r ;;; fn nr ;;; ret nr) σ.
Proof. intros Hr. unfold Route. by rewrite (bind_eq _ _ _ _ _ (get_eq σ r c Hr)). Qed.

(** *** Registration *)

Lemma string_app_assoc (a b c : string) : (a +:+ b) +:+ c = a +:+ b +:+ c.
Proof.
  induction a as [|x a IH]; [done|].
  change (String x ((a +:+ b) +:+ c) = String x (a +:+ b +:+ c)).
  by f_equal.
Qed.

(** The key [Method] builds is the one the specification words. *)
Lemma method_key method pre pat :
  (if decide (method ≠ "") then method +:+ " " else method) +:+ pre +:+ pat
  = spec_key method pre pat.
Proof.
  unfold spec_key. destruct (decide (method = "")) as [->|Hne].
  - by rewrite decide_False by (intros Hne; by apply Hne).
  - rewrite decide_True by done. apply string_app_assoc.
Qed.

Lemma apply_funcs_panic (fs : list func) :
  foldr (λ (f : func) acc, next ← acc; m ← f; Some (m next)) None fs
  = @None Handler.
Proof. induction fs as [|f fs IH]; simpl; [done|]. by rewrite IH. Qed.

Lemma apply_funcs_snoc (fs : list func) f h :
  apply_funcs (fs ++ [f]) h =
    match f with Some m => apply_funcs fs (m h) | None => None end.
Proof.
  unfold apply_funcs. rewrite foldr_snoc. simpl.
  destruct f as [m|]; [done|]. apply apply_funcs_panic.
Qed.

Lemma apply_funcs_compose ms h :
  apply_funcs (Some <$> ms) h = Some (compose ms h).
Proof.
  induction ms as [|m ms IH]; [done|].
  change (apply_funcs (Some <$> m :: ms) h)
    with (next ← apply_funcs (Some <$> ms) h; Some (m next)).
  by rewrite IH.
Qed.

Lemma compose_backwards ms h : compose ms h = wrap_backwards ms h.
Proof.
  unfold compose, wrap_backwards. rewrite <- fold_left_rev_right.
  by rewrite rev_involutive.
Qed.

(** With middlewares that only wrap, the loop reads the heap and leaves it
    as it is. *)
Lemma wrap_heap r n : ∀ h σ h' σ',
  wrap r n h σ = Some (h', σ') → σ' = σ.
Proof.
  induction n as [|i IH]; intros h σ h' σ'; simpl.
  - unfold ret. congruence.
  - unfold bind, get, index, call.
    destruct (contexts σ !! r) as [c|]; simpl; [|done].
    destruct (decide (i < len (middlewares c))); [|done].
    destruct (array (middlewares c)) as [a|]; simpl; [|done].
    destruct (arrays σ !! a) as [cells|]; simpl; [|done].
    destruct (cells !! i) as [[m|]|]; simpl; [|done..].
    apply IH.
Qed.

(** The loop applies the last [n] of the first [n] elements backwards. *)
Lemma wrap_spec σ r c fs :
  contexts σ !! r = Some c →
  slice_ok σ (middlewares c) →
  elems_of σ (middlewares c) = Some fs →
  ∀ n h, n ≤ len (middlewares c) →
    wrap r n h σ = (h' ← apply_funcs (take n fs) h; Some (h', σ)).
Proof.
  intros Hr Hok Hfs. induction n as [|i IH]; intros h Hn; simpl.
  - done.
  - rewrite (bind_eq _ _ _ _ _ (get_eq σ r c Hr)).
    destruct (slice_ok_index σ (middlewares c) fs i Hok Hfs) as (f & Hf & Hidx);
      [lia|].
    rewrite (bind_eq _ _ _ _ _ Hidx).
    rewrite (take_S_r _ _ _ Hf), apply_funcs_snoc.
    destruct f as [m|]; [|done].
    unfold call. rewrite (bind_eq (ret (m h)) _ σ (m h) σ) by done.
    apply IH. lia.
Qed.

Lemma Method_spec σ r c fs method pat h :
  wf σ → contexts σ !! r = Some c → chain σ r = Some fs →
  Method r method pat h σ =
    (h' ← apply_funcs fs h;
     mux_Handle (ServeMux c) (spec_key method (pattern c) pat) h' σ).
Proof.
  intros Hwf Hr Hfs.
  destruct (wf_chain σ r c Hwf Hr) as (fs' & Hfs' & Hel & Hlen).
  assert (fs' = fs) as -> by congruence.
  unfold Method. rewrite (bind_eq _ _ _ _ _ (get_eq σ r c Hr)).
  unfold bind at 1.
  rewrite (wrap_spec σ r c fs Hr (wf_slice σ Hwf r c Hr) Hel) by done.
  rewrite take_ge by lia.
  destruct (apply_funcs fs h) as [h'|]; simpl; [|done].
  rewrite (bind_eq _ _ _ _ _ (get_eq σ r c Hr)).
  by rewrite method_key.
Qed.

(** Whatever the heap, with middlewares that only wrap, a registration that
    returns has written one mux and nothing else. *)
Lemma Method_frame σ r method pat h u σ' :
  Method r method pat h σ = Some (u, σ') →
  contexts σ' = contexts σ ∧ arrays σ' = arrays σ ∧
  ∃ c h' m m',
    contexts σ !! r = Some c ∧
    muxes σ !! ServeMux c = Some m ∧
    Handle (spec_key method (pattern c) pat) h' m = Some m' ∧
    muxes σ' = <[ServeMux c := m']> (muxes σ).
Proof.
  unfold Method. unfold bind at 1. unfold get at 1.
  destruct (contexts σ !! r) as [c|] eqn:Hr; simpl; [|done].
  unfold bind at 1.
  destruct (wrap r (len (middlewares c)) h σ) as [[h' σ1]|] eqn:Hwrap; [|done].
  apply wrap_heap in Hwrap as ->.
  rewrite (bind_eq _ _ _ _ _ (get_eq σ r c Hr)), method_key.
  unfold mux_Handle.
  destruct (muxes σ !! ServeMux c) as [m|] eqn:Hm; simpl; [|done].
  destruct (Handle _ h' m) as [m'|] eqn:HH; simpl; [|done].
  intros [= <- <-]. simpl. split; [done|]. split; [done|].
  by exists c, h', m, m'.
Qed.

(** *** The invariant holds wherever configuration code gets *)

Lemma NewRouter_spec σ :
  wf σ →
  ∃ r p σ',
    NewRouter σ = Some (r, σ') ∧
    contexts σ !! r = None ∧ muxes σ !! p = None ∧
    contexts σ' = <[r := RouterContext "" p nil_slice]> (contexts σ) ∧
    arrays σ' = arrays σ ∧
    muxes σ' = <[p := NewServeMux]> (muxes σ) ∧
    wf σ'.
Proof.
  intros Hwf.
  set (p := fresh (dom (muxes σ))). set (r := fresh (dom (contexts σ))).
  assert (muxes σ !! p = None) as Hp by apply not_elem_of_dom, is_fresh.
  assert (contexts σ !! r = None) as Hr by apply fresh_context.
  eexists r, p, _. split; [done|]. simpl.
  split; [done|]. split; [done|]. split; [done|]. split; [done|].
  split; [done|]. split; simpl.
  - intros r' c' Hr'. destruct (decide (r' = r)) as [->|Hne].
    + rewrite lookup_insert_eq in Hr'. injection Hr' as <-. by split.
    + rewrite lookup_insert_ne in Hr' by done. by apply (wf_slice σ Hwf r' c').
  - intros r' c' Hr'. destruct (decide (r' = r)) as [->|Hne].
    + rewrite lookup_insert_eq in Hr'. injection Hr' as <-. simpl.
      rewrite lookup_insert_eq. eauto.
    + rewrite lookup_insert_ne in Hr' by done.
      destruct (wf_mux σ Hwf r' c' Hr') as [m Hm].
      rewrite lookup_insert_ne; [eauto|].
      fold p. intros Heq. rewrite Heq in Hp. by rewrite Hp in Hm.
  - intros r1 r2 c1 c2 a Hr1 Hr2 Ha1 Ha2.
    destruct (decide (r1 = r)) as [->|Hne1].
    { rewrite lookup_insert_eq in Hr1. by injection Hr1 as <-. }
    destruct (decide (r2 = r)) as [->|Hne2].
    { rewrite lookup_insert_eq in Hr2. by injection Hr2 as <-. }
    rewrite lookup_insert_ne in Hr1, Hr2 by done.
    by apply (wf_unshared σ Hwf r1 r2 c1 c2 a).
Qed.

Lemma Method_wf σ r method pat h u σ' :
  wf σ → Method r method pat h σ = Some (u, σ') → wf σ'.
Proof.
  intros Hwf HM.
  destruct (Method_frame σ r method pat h u σ' HM) as
    (Hctx & Harr & c & h' & m & m' & Hr & Hm & _ & Hmux).
  split.
  - intros r' c'. rewrite Hctx. intros Hr'.
    eapply slice_ok_frame; [|by apply (wf_slice σ Hwf r' c')].
    intros b _. by rewrite Harr.
  - intros r' c'. rewrite Hctx, Hmux. intros Hr'.
    destruct (decide (ServeMux c = ServeMux c')) as [Heq|Hne].
    + rewrite Heq, lookup_insert_eq. eauto.
    + rewrite lookup_insert_ne by done. by apply (wf_mux σ Hwf r' c').
  - intros r1 r2 c1 c2 a. rewrite Hctx. by apply (wf_unshared σ Hwf).
Qed.

(** A method called through a pointer to no context panics. *)
Lemma get_bind_None {A} σ r (k : routerContext → Go A) :
  contexts σ !! r = None → (c <- get r ;; k c) σ = None.
Proof. intros Hr. unfold bind, get. by rewrite Hr. Qed.

Lemma configures_wf {A} (m : Go A) :
  configures m →
  ∀ σ a σ', wf σ → m σ = Some (a, σ') → wf σ' ∧ grows σ σ'.
Proof.
  induction 1 as [A a|A B m k _ IHm _ IHk| |r mws|r mws|r fn _ IH
                  |r pat fn _ IH|r method pat h]; intros σ x σ' Hwf Hrun.
  - unfold ret in Hrun. injection Hrun as <- <-. split; [done|by intros r].
  - unfold bind in Hrun. destruct (m σ) as [[a σ1]|] eqn:Hm; [|done].
    destruct (IHm σ a σ1 Hwf Hm) as [Hwf1 Hg1].
    destruct (IHk a σ1 x σ' Hwf1 Hrun) as [Hwf' Hg']. split; [done|].
    intros r Hr. by apply Hg', Hg1.
  - destruct (NewRouter_spec σ Hwf) as (r & p & σ2 & Heq & Hr & _ & Hctx & _ & _ & Hwf2).
    rewrite Heq in Hrun. injection Hrun as <- <-. split; [done|].
    intros r' Hr'. rewrite Hctx. rewrite lookup_insert_ne; [done|].
    intros <-. rewrite Hr in Hr'. by destruct Hr'.
  - destruct (contexts σ !! r) as [c|] eqn:Hr.
    + destruct (Use_spec σ r c mws Hwf Hr) as
        (s' & σ2 & old & Heq & _ & Hctx & _ & _ & Hwf2 & _).
      assert (σ' = σ2) as -> by congruence. split; [done|].
      intros r' Hr'. rewrite Hctx. destruct (decide (r = r')) as [->|Hne].
      * rewrite lookup_insert_eq. eauto.
      * by rewrite lookup_insert_ne.
    + unfold Use in Hrun. by rewrite get_bind_None in Hrun.
  - destruct (contexts σ !! r) as [c|] eqn:Hr.
    + destruct (With_spec σ r c mws Hwf Hr) as
        (nr & s & σ2 & old & Heq & _ & _ & _ & _ & Hwf2 & (Hkeep & _) & _).
      rewrite Heq in Hrun. injection Hrun as <- <-. split; [done|].
      intros r' [c' Hr']. eauto.
    + unfold With in Hrun. by rewrite get_bind_None in Hrun.
  - destruct (contexts σ !! r) as [c|] eqn:Hr.
    + rewrite (Group_run σ r c fn Hr) in Hrun.
      destruct (derive_spec σ r c (pattern c) Hwf Hr) as
        (nr & s & σ1 & old & _ & _ & _ & _ & Hwf1 & (Hkeep & _) & _ & _ & Heq).
      rewrite Heq in Hrun. unfold bind in Hrun.
      destruct (fn nr σ1) as [[[] σ2]|] eqn:Hfn; [|done].
      injection Hrun as <- <-.
      destruct (IH nr σ1 tt σ2 Hwf1 Hfn) as [Hwf2 Hg]. split; [done|].
      intros r' [c' Hr']. apply Hg. eauto.
    + unfold Group in Hrun. by rewrite get_bind_None in Hrun.
  - destruct (contexts σ !! r) as [c|] eqn:Hr.
    + rewrite (Route_run σ r c pat fn Hr) in Hrun.
      destruct (derive_spec σ r c (pattern c +:+ pat) Hwf Hr) as
        (nr & s & σ1 & old & _ & _ & _ & _ & Hwf1 & (Hkeep & _) & _ & _ & Heq).
      rewrite Heq in Hrun. unfold bind in Hrun.
      destruct (fn nr σ1) as [[[] σ2]|] eqn:Hfn; [|done].
      injection Hrun as <- <-.
      destruct (IH nr σ1 tt σ2 Hwf1 Hfn) as [Hwf2 Hg]. split; [done|].
      intros r' [c' Hr']. apply Hg. eauto.
    + unfold Route in Hrun. by rewrite get_bind_None in Hrun.
  - split; [by eapply Method_wf|].
    destruct (Method_frame σ r method pat h x σ' Hrun) as (Hctx & _).
    intros r'. by rewrite Hctx.
Qed.

(** In particular it holds in every heap configuration code builds from
    nothing. *)
Lemma reachable_wf {A} (m : Go A) a σ :
  configures m → m empty_heap = Some (a, σ) → wf σ.
Proof.
  intros Hcfg Hrun.
  by destruct (configures_wf m Hcfg empty_heap a σ wf_empty Hrun).
Qed.

(** *** The invariant can be checked on a given heap *)

#[global] Instance slice_ok_dec σ s : Decision (slice_ok σ s).
Proof.
  unfold slice_ok. destruct (array s) as [a|]; [|apply _].
  destruct (arrays σ !! a) as [cells|].
  - destruct (decide (length cells = cap s ∧ len s ≤ cap s)) as [Hy|Hn].
    + left. by exists cells.
    + right. intros (cells' & Heq & Hc). injection Heq as <-. by apply Hn.
  - right. by intros (cells' & Heq & _).
Defined.

Lemma wf_alt σ :
  wf σ ↔
  map_Forall (λ _ c, slice_ok σ (middlewares c) ∧
                     is_Some (muxes σ !! ServeMux c)) (contexts σ) ∧
  map_Forall (λ r1 c1,
    map_Forall (λ r2 c2,
      is_Some (array (middlewares c1)) →
      array (middlewares c1) = array (middlewares c2) → r1 = r2)
      (contexts σ)) (contexts σ).
Proof.
  split.
  - intros Hwf. split.
    + intros r c Hr. split; [by eapply wf_slice|by eapply wf_mux].
    + intros r1 c1 Hr1 r2 c2 Hr2 [a Ha] Heq.
      apply (wf_unshared σ Hwf r1 r2 c1 c2 a); congruence.
  - intros [Hone Htwo]. split.
    + intros r c Hr. by apply (Hone r c Hr).
    + intros r c Hr. by apply (Hone r c Hr).
    + intros r1 r2 c1 c2 a Hr1 Hr2 Ha1 Ha2.
      apply (Htwo r1 c1 Hr1 r2 c2 Hr2); [eauto|congruence].
Qed.

#[global] Instance wf_dec σ : Decision (wf σ).
Proof.
  destruct (decide (
    map_Forall (λ _ c, slice_ok σ (middlewares c) ∧
                       is_Some (muxes σ !! ServeMux c)) (contexts σ) ∧
    map_Forall (λ r1 c1,
      map_Forall (λ r2 c2,
        is_Some (array (middlewares c1)) →
        array (middlewares c1) = array (middlewares c2) → r1 = r2)
        (contexts σ)) (contexts σ))) as [Hy|Hn].
  - left. by apply wf_alt.
  - right. intros Hwf. by apply Hn, wf_alt.
Defined.

End Proofs.

(** ** The claims *)

Section Claims.
Context `{NetHTTP, GoRuntime}.
Implicit Types (σ : Heap) (r nr : loc) (s : slice) (c : routerContext).
Implicit Types (xs mws : list func) (ms : list Middleware) (h : Handler).
Implicit Types (hf : HandlerFunc).

Lemma Method_compose σ r c ms method pat h :
  wf σ → contexts σ !! r = Some c → chain σ r = Some (Some <$> ms) →
  Method r method pat h σ =
    mux_Handle (ServeMux c) (spec_key method (pattern c) pat) (compose ms h) σ.
Proof.
  intros Hwf Hr Hch. rewrite (Method_spec σ r c _ method pat h Hwf Hr Hch).
  by rewrite apply_funcs_compose.
Qed.

(** Every per-verb helper is [Method] at the verb of its name. *)
Lemma helper_Method helper verb r pat hf :
  (helper, verb) ∈ verb_helpers →
  helper r pat hf = Method r verb pat (HandlerFunc_Handler hf).
Proof.
  unfold verb_helpers. intros Hin.
  repeat (apply elem_of_cons in Hin as [Heq|Hin];
          [by injection Heq as -> ->|]).
  by apply elem_of_nil in Hin.
Qed.

(** C1: on a context whose chain is m1, ..., mn in the order they were
    added, Method, MethodFunc and every per-verb helper leave in the mux the
    context points to what Handle makes of its contents when it is given
    the handler m1 (m2 (... (mn h))), and leave the rest of the heap as it
    is: the chain is applied from the last added to the first added, so
    that the first added is outermost. *)
Theorem Method_composes_chain σ r c ms m method pat h hf :
  wf σ → contexts σ !! r = Some c → chain σ r = Some (Some <$> ms) →
  muxes σ !! ServeMux c = Some m →
  let installed key g :=
    m' ← Handle key g m;
    Some (tt, MkHeap (contexts σ) (arrays σ) (<[ServeMux c := m']> (muxes σ))) in
  Method r method pat h σ =
    installed (spec_key method (pattern c) pat) (compose ms h) ∧
  MethodFunc r method pat hf σ =
    installed (spec_key method (pattern c) pat)
              (compose ms (HandlerFunc_Handler hf)) ∧
  (∀ helper verb, (helper, verb) ∈ verb_helpers →
     helper r pat hf σ =
       installed (spec_key verb (pattern c) pat)
                 (compose ms (HandlerFunc_Handler hf))) ∧
  compose ms h = wrap_backwards ms h ∧
  (∀ m1 m2 m3 : Middleware, compose [m1; m2; m3] h = m1 (m2 (m3 h))).
Proof.
  intros Hwf Hr Hch Hm installed.
  assert (∀ method' g,
    Method r method' pat g σ =
      installed (spec_key method' (pattern c) pat) (compose ms g)) as HM.
  { intros method' g. rewrite (Method_compose σ r c ms method' pat g Hwf Hr Hch).
    unfold mux_Handle, installed. by rewrite Hm. }
  split; [apply HM|]. split; [apply HM|]. split.
  - intros helper verb Hin. rewrite (helper_Method helper verb r pat hf Hin).
    apply HM.
  - split; [apply compose_backwards|done].
Qed.

(** C5: Method installs the composed handler in the mux the context shares,
    under the method, a space, the prefix and the pattern when the method is
    not empty, and under the prefix and the pattern alone when it is. *)
Theorem Method_installs_under_key σ r c ms m method pat h :
  wf σ → contexts σ !! r = Some c → chain σ r = Some (Some <$> ms) →
  muxes σ !! ServeMux c = Some m →
  let installed key :=
    m' ← Handle key (compose ms h) m;
    Some (tt, MkHeap (contexts σ) (arrays σ) (<[ServeMux c := m']> (muxes σ))) in
  (method ≠ "" →
   Method r method pat h σ = installed (method +:+ " " +:+ (pattern c +:+ pat))) ∧
  (method = "" → Method r method pat h σ = installed (pattern c +:+ pat)) ∧
  Method r method pat h σ = installed (spec_key method (pattern c) pat).
Proof.
  intros Hwf Hr Hch Hm installed.
  assert (Method r method pat h σ = installed (spec_key method (pattern c) pat))
    as Heq.
  { rewrite (Method_compose σ r c ms method pat h Hwf Hr Hch).
    unfold mux_Handle, installed. by rewrite Hm. }
  split; [|split; [|done]].
  - intros Hne. rewrite Heq. unfold spec_key. by rewrite decide_False.
  - intros Hemp. rewrite Heq. unfold spec_key. by rewrite decide_True.
Qed.

(** C9: MethodFunc is Method on the handler the function is, and each
    per-verb helper is MethodFunc at the literal verb of its name. *)
Theorem MethodFunc_and_helpers_delegate r method pat hf :
  MethodFunc r method pat hf = Method r method pat (HandlerFunc_Handler hf) ∧
  Connect r pat hf = MethodFunc r "CONNECT" pat hf ∧
  Delete r pat hf = MethodFunc r "DELETE" pat hf ∧
  Get r pat hf = MethodFunc r "GET" pat hf ∧
  Head r pat hf = MethodFunc r "HEAD" pat hf ∧
  Options r pat hf = MethodFunc r "OPTIONS" pat hf ∧
  Patch r pat hf = MethodFunc r "PATCH" pat hf ∧
  Post r pat hf = MethodFunc r "POST" pat hf ∧
  Put r pat hf = MethodFunc r "PUT" pat hf ∧
  Trace r pat hf = MethodFunc r "TRACE" pat hf.
Proof. repeat split. Qed.

Lemma chain_lookup σ r c :
  contexts σ !! r = Some c → chain σ r = elems_of σ (middlewares c).
Proof. intros Hr. unfold chain. by rewrite Hr. Qed.

Lemma Use_apart_wf σ a b ca :
  wf σ → a ≠ b → contexts σ !! a = Some ca → Use_apart σ a b.
Proof.
  intros Hwf Hne Ha xs.
  destruct (Use_spec σ a ca xs Hwf Ha) as
    (s' & σ' & old & Heq & Hold & Hctx & _ & Hs & _ & Hchain & _).
  exists σ'. split; [done|]. split; [|by apply Hchain].
  rewrite (chain_lookup σ a ca Ha), Hold.
  rewrite (chain_lookup σ' a (with_middlewares ca s')); [done|].
  rewrite Hctx. apply lookup_insert_eq.
Qed.

Lemma independent_wf σ a b :
  wf σ → a ≠ b →
  is_Some (contexts σ !! a) → is_Some (contexts σ !! b) →
  independent σ a b.
Proof.
  intros Hwf Hne Ha Hb A m x σ' Hcfg Hrun.
  destruct (configures_wf m Hcfg σ x σ' Hwf Hrun) as [Hwf' Hg].
  destruct (Hg a Ha) as [ca Hca]. destruct (Hg b Hb) as [cb Hcb].
  split; [by apply (Use_apart_wf σ' a b ca)|by apply (Use_apart_wf σ' b a cb)].
Qed.

(** What the three derivations have in common, in the words of the
    claims. *)
Lemma derive_chain σ r c p old :
  wf σ → contexts σ !! r = Some c → chain σ r = Some old →
  ∃ nr cn σ1,
    contexts σ !! nr = None ∧
    contexts σ1 = <[nr := cn]> (contexts σ) ∧
    pattern cn = p ∧ ServeMux cn = ServeMux c ∧
    (∀ a, array (middlewares cn) = Some a → arrays σ !! a = None) ∧
    wf σ1 ∧ preserved σ σ1 ∧
    chain σ1 nr = Some old ∧ chain σ1 r = Some old ∧
    independent σ1 r nr ∧
    ∀ A (k : loc → Go A),
      (nr <- new (RouterContext p (ServeMux c) nil_slice) ;;
       inherit nr r ;;; k nr) σ = k nr σ1.
Proof.
  intros Hwf Hr Hch.
  destruct (derive_spec σ r c p Hwf Hr) as
    (nr & s & σ1 & old' & Hnr & Hold & Hctx & Hs & Hwf1 & Hpres & Hchain & Hown & Hrun).
  rewrite (chain_lookup σ r c Hr), Hold in Hch. injection Hch as ->.
  assert (r ≠ nr) as Hne by congruence.
  assert (contexts σ1 !! nr = Some (RouterContext p (ServeMux c) s)) as Hcn.
  { rewrite Hctx. apply lookup_insert_eq. }
  exists nr, (RouterContext p (ServeMux c) s), σ1.
  split; [done|]. split; [done|]. split; [done|]. split; [done|].
  split; [done|]. split; [done|]. split; [done|].
  split; [by rewrite (chain_lookup σ1 nr _ Hcn)|].
  split; [by rewrite (Hchain r Hne), (chain_lookup σ r c Hr)|].
  split; [|done].
  apply independent_wf; [done..| |by eauto].
  destruct Hpres as (Hkeep & _). eauto.
Qed.

(** C2: a context derived by With, Group or Route starts with the chain of
    its parent (With adds its arguments behind), and from then on, whatever
    configuration code runs, a Use on the parent does not change the chain
    of the child, nor a Use on the child the chain of the parent. *)
Theorem derived_chains_independent σ r c old mws pat :
  wf σ → contexts σ !! r = Some c → chain σ r = Some old →
  (∃ nr σ', With r mws σ = Some (nr, σ') ∧
            chain σ' nr = Some (old ++ mws) ∧ chain σ' r = Some old ∧
            independent σ' r nr) ∧
  (∃ nr σ1, (∀ fn, Group r fn σ = (fn nr ;;; ret nr) σ1) ∧
            chain σ1 nr = Some old ∧ chain σ1 r = Some old ∧
            independent σ1 r nr) ∧
  (∃ nr σ1, (∀ fn, Route r pat fn σ = (fn nr ;;; ret nr) σ1) ∧
            chain σ1 nr = Some old ∧ chain σ1 r = Some old ∧
            independent σ1 r nr).
Proof.
  intros Hwf Hr Hch. split; [|split].
  - destruct (With_spec σ r c mws Hwf Hr) as
      (nr & s & σ' & old' & Heq & Hnr & Hold & Hctx & Hs & Hwf' & Hpres & Hchain & _).
    rewrite (chain_lookup σ r c Hr), Hold in Hch. injection Hch as ->.
    assert (r ≠ nr) as Hne by congruence.
    assert (contexts σ' !! nr = Some (RouterContext (pattern c) (ServeMux c) s))
      as Hcn by (rewrite Hctx; apply lookup_insert_eq).
    exists nr, σ'. split; [done|].
    split; [by rewrite (chain_lookup σ' nr _ Hcn)|].
    split; [by rewrite (Hchain r Hne), (chain_lookup σ r c Hr)|].
    apply independent_wf; [done..| |by eauto].
    destruct Hpres as (Hkeep & _). eauto.
  - destruct (derive_chain σ r c (pattern c) old Hwf Hr Hch) as
      (nr & cn & σ1 & _ & _ & _ & _ & _ & _ & _ & Hnew & Hsame & Hind & Hrun).
    exists nr, σ1. split; [|done].
    intros fn. rewrite (Group_run σ r c fn Hr). apply Hrun.
  - destruct (derive_chain σ r c (pattern c +:+ pat) old Hwf Hr Hch) as
      (nr & cn & σ1 & _ & _ & _ & _ & _ & _ & _ & Hnew & Hsame & Hind & Hrun).
    exists nr, σ1. split; [|done].
    intros fn. rewrite (Route_run σ r c pat fn Hr). apply Hrun.
Qed.

(** C3: With writes nothing that existed, and returns a context at a new
    address with the receiver's prefix, a pointer to the receiver's mux, and
    in an array of its own the receiver's chain followed by the arguments
    in their order. *)
Theorem With_derives_without_mutation σ r c old mws :
  wf σ → contexts σ !! r = Some c → chain σ r = Some old →
  ∃ nr cn σ',
    With r mws σ = Some (nr, σ') ∧
    contexts σ !! nr = None ∧ contexts σ' !! nr = Some cn ∧
    preserved σ σ' ∧ contexts σ' !! r = Some c ∧ chain σ' r = Some old ∧
    pattern cn = pattern c ∧
    ServeMux cn = ServeMux c ∧ table σ' nr = table σ r ∧
    chain σ' nr = Some (old ++ mws) ∧
    (∀ a, array (middlewares cn) = Some a → arrays σ !! a = None).
Proof.
  intros Hwf Hr Hch.
  destruct (With_spec σ r c mws Hwf Hr) as
    (nr & s & σ' & old' & Heq & Hnr & Hold & Hctx & Hs & Hwf' & Hpres & Hchain & Hown).
  rewrite (chain_lookup σ r c Hr), Hold in Hch. injection Hch as ->.
  assert (r ≠ nr) as Hne by congruence.
  assert (contexts σ' !! nr = Some (RouterContext (pattern c) (ServeMux c) s))
    as Hcn by (rewrite Hctx; apply lookup_insert_eq).
  exists nr, (RouterContext (pattern c) (ServeMux c) s), σ'.
  split; [done|]. split; [done|]. split; [done|]. split; [done|].
  destruct Hpres as (Hkeep & _ & Hmux).
  split; [by apply Hkeep|].
  split; [by rewrite (Hchain r Hne), (chain_lookup σ r c Hr)|].
  split; [done|]. split; [done|].
  split; [unfold table; by rewrite Hcn, Hr, Hmux|].
  split; [by rewrite (chain_lookup σ' nr _ Hcn)|done].
Qed.

(** C4: Route derives a context whose prefix is the receiver's prefix and
    the sub-pattern put end to end as they are, and a route registered on it
    with pattern q is put in the shared mux under that prefix followed by q;
    so that Get of q in the function handed to Route leaves the mux holding
    what Handle makes of its contents when given GET, a space, and the three
    strings one after the other. *)
Theorem Route_concatenates_prefix σ r c fs m pat :
  wf σ → contexts σ !! r = Some c → chain σ r = Some fs →
  muxes σ !! ServeMux c = Some m →
  ∃ nr σ1,
    (∀ fn, Route r pat fn σ = (fn nr ;;; ret nr) σ1) ∧
    prefix σ1 nr = Some (pattern c +:+ pat) ∧
    muxes σ1 = muxes σ ∧
    (∀ method q h,
       Method nr method q h σ1 =
         (g ← apply_funcs fs h;
          m' ← Handle (spec_key method (pattern c +:+ pat) q) g m;
          Some (tt, MkHeap (contexts σ1) (arrays σ1)
                           (<[ServeMux c := m']> (muxes σ1))))) ∧
    (∀ q hf,
       Route r pat (λ x, Get x q hf) σ =
         (g ← apply_funcs fs (HandlerFunc_Handler hf);
          m' ← Handle ("GET " +:+ pattern c +:+ pat +:+ q) g m;
          Some (nr, MkHeap (contexts σ1) (arrays σ1)
                           (<[ServeMux c := m']> (muxes σ1))))).
Proof.
  intros Hwf Hr Hch Hm.
  destruct (derive_chain σ r c (pattern c +:+ pat) fs Hwf Hr Hch) as
    (nr & cn & σ1 & Hnr & Hctx & Hpat & Hmux & _ & Hwf1 & (_ & _ & Hmuxes) & Hnew & _ & _ & Hrun).
  assert (contexts σ1 !! nr = Some cn) as Hcn
    by (rewrite Hctx; apply lookup_insert_eq).
  assert (∀ method q h,
    Method nr method q h σ1 =
      (g ← apply_funcs fs h;
       m' ← Handle (spec_key method (pattern c +:+ pat) q) g m;
       Some (tt, MkHeap (contexts σ1) (arrays σ1)
                        (<[ServeMux c := m']> (muxes σ1)))))
    as HM.
  { intros method q h.
    rewrite (Method_spec σ1 nr cn fs method q h Hwf1 Hcn Hnew).
    rewrite Hpat, Hmux. unfold mux_Handle. by rewrite Hmuxes, Hm. }
  exists nr, σ1. split.
  { intros fn. rewrite (Route_run σ r c pat fn Hr). apply Hrun. }
  split; [unfold prefix; by rewrite Hcn, <- Hpat|]. split; [done|].
  split; [done|].
  intros q hf. rewrite (Route_run σ r c pat _ Hr), Hrun.
  unfold bind at 1. unfold Get, MethodFunc. rewrite HM.
  destruct (apply_funcs fs (HandlerFunc_Handler hf)) as [g|]; simpl; [|done].
  unfold spec_key. rewrite decide_False by done.
  rewrite string_app_assoc.
  change (MethodGet +:+ " " +:+ pattern c +:+ pat +:+ q)
    with ("GET " +:+ pattern c +:+ pat +:+ q).
  by destruct (Handle _ g m).
Qed.

(** C6: Use puts its arguments, in their order, behind the receiver's
    chain, in place; it writes no mux, so what was registered before stays
    composed as it was, and no other context; the routes registered on the
    receiver after it carry the longer chain. *)
Theorem Use_appends_forward_only σ r c old mws :
  wf σ → contexts σ !! r = Some c → chain σ r = Some old →
  ∃ σ',
    Use r mws σ = Some (tt, σ') ∧
    chain σ' r = Some (old ++ mws) ∧ prefix σ' r = prefix σ r ∧
    muxes σ' = muxes σ ∧
    (∀ r', r' ≠ r →
       contexts σ' !! r' = contexts σ !! r' ∧ chain σ' r' = chain σ r') ∧
    (∀ method pat h,
       Method r method pat h σ' =
         (g ← apply_funcs (old ++ mws) h;
          mux_Handle (ServeMux c) (spec_key method (pattern c) pat) g σ')) ∧
    (∀ method pat h,
       Method r method pat h σ =
         (g ← apply_funcs old h;
          mux_Handle (ServeMux c) (spec_key method (pattern c) pat) g σ) ∧
       ∀ σa, Method r method pat h σ = Some (tt, σa) →
         ∃ σb, Use r mws σa = Some (tt, σb) ∧ muxes σb = muxes σa).
Proof.
  intros Hwf Hr Hch.
  destruct (Use_spec σ r c mws Hwf Hr) as
    (s' & σ' & old' & Heq & Hold & Hctx & Hmux & Hs & Hwf' & Hchain & _).
  rewrite (chain_lookup σ r c Hr), Hold in Hch. injection Hch as ->.
  assert (contexts σ' !! r = Some (with_middlewares c s')) as Hr'
    by (rewrite Hctx; apply lookup_insert_eq).
  assert (chain σ' r = Some (old ++ mws)) as Hch'
    by (by rewrite (chain_lookup σ' r _ Hr')).
  exists σ'. split; [done|]. split; [done|].
  split; [unfold prefix; by rewrite Hr', Hr|]. split; [done|]. split.
  { intros r' Hne. split; [|by apply Hchain].
    rewrite Hctx. by apply lookup_insert_ne. }
  split.
  { intros method pat h.
    by rewrite (Method_spec σ' r _ _ method pat h Hwf' Hr' Hch'). }
  intros method pat h. split.
  { apply Method_spec; [done..|]. by rewrite (chain_lookup σ r c Hr). }
  intros σa HM.
  pose proof (Method_wf σ r method pat h tt σa Hwf HM) as Hwfa.
  destruct (Method_frame σ r method pat h tt σa HM) as (Hca & _).
  assert (contexts σa !! r = Some c) as Hra by (by rewrite Hca).
  destruct (Use_spec σa r c mws Hwfa Hra) as
    (sb & σb & _ & Hb & _ & _ & Hmuxb & _).
  by exists σb.
Qed.

(** C7: With, and Group and Route up to the point where they call the
    function they are given, leave every mux as it is; what Group and Route
    return is the heap that function left, so a function that registers
    nothing leaves the muxes as they were. *)
Theorem derivation_leaves_table σ r c mws pat :
  wf σ → contexts σ !! r = Some c →
  (∃ nr σ', With r mws σ = Some (nr, σ') ∧
            muxes σ' = muxes σ ∧ table σ' nr = table σ r) ∧
  (∃ nr σ1, (∀ fn, Group r fn σ = (fn nr ;;; ret nr) σ1) ∧
            Group r (λ _, ret tt) σ = Some (nr, σ1) ∧
            muxes σ1 = muxes σ ∧ table σ1 nr = table σ r) ∧
  (∃ nr σ1, (∀ fn, Route r pat fn σ = (fn nr ;;; ret nr) σ1) ∧
            Route r pat (λ _, ret tt) σ = Some (nr, σ1) ∧
            muxes σ1 = muxes σ ∧ table σ1 nr = table σ r).
Proof.
  intros Hwf Hr.
  destruct (wf_chain σ r c Hwf Hr) as (old & Hch & _).
  split; [|split].
  - destruct (With_spec σ r c mws Hwf Hr) as
      (nr & s & σ' & _ & Heq & _ & _ & Hctx & _ & _ & (_ & _ & Hmux) & _).
    exists nr, σ'. split; [done|]. split; [done|].
    unfold table. rewrite Hctx, lookup_insert_eq, Hr. simpl. by rewrite Hmux.
  - destruct (derive_chain σ r c (pattern c) old Hwf Hr Hch) as
      (nr & cn & σ1 & _ & Hctx & _ & Hp & _ & _ & (_ & _ & Hmux) & _ & _ & _ & Hrun).
    exists nr, σ1.
    assert (∀ fn, Group r fn σ = (fn nr ;;; ret nr) σ1) as HG.
    { intros fn. rewrite (Group_run σ r c fn Hr). apply Hrun. }
    split; [done|]. split; [by rewrite HG|]. split; [done|].
    unfold table. rewrite Hctx, lookup_insert_eq, Hr. simpl. by rewrite Hmux, Hp.
  - destruct (derive_chain σ r c (pattern c +:+ pat) old Hwf Hr Hch) as
      (nr & cn & σ1 & _ & Hctx & _ & Hp & _ & _ & (_ & _ & Hmux) & _ & _ & _ & Hrun).
    exists nr, σ1.
    assert (∀ fn, Route r pat fn σ = (fn nr ;;; ret nr) σ1) as HR.
    { intros fn. rewrite (Route_run σ r c pat fn Hr). apply Hrun. }
    split; [done|]. split; [by rewrite HR|]. split; [done|].
    unfold table. rewrite Hctx, lookup_insert_eq, Hr. simpl. by rewrite Hmux, Hp.
Qed.

Lemma scope_returns_configured σ r c old p (op : (loc → Go unit) → Go loc) :
  wf σ → contexts σ !! r = Some c → chain σ r = Some old →
  (∀ fn, op fn σ =
     (nr <- new (RouterContext p (ServeMux c) nil_slice) ;;
      inherit nr r ;;; fn nr ;;; ret nr) σ) →
  returns_configured σ c old p op.
Proof.
  intros Hwf Hr Hch Hop.
  destruct (derive_chain σ r c p old Hwf Hr Hch) as
    (nr & cn & σ1 & Hnr & Hctx & Hpat & Hmux & _ & Hwf1 & _ & Hnew & _ & _ & Hrun).
  assert (contexts σ1 !! nr = Some cn) as Hcn
    by (rewrite Hctx; apply lookup_insert_eq).
  assert (∀ fn, op fn σ = match fn nr σ1 with
                          | Some (_, σ2) => Some (nr, σ2)
                          | None => None
                          end) as Hcall.
  { intros fn. by rewrite Hop, Hrun. }
  exists nr, cn, σ1.
  split; [done|]. split; [done|]. split; [done|]. split; [done|].
  split; [done|]. split; [done|]. split.
  - intros fn g σ2 Hcfg Hret. rewrite Hcall in Hret.
    destruct (fn nr σ1) as [[[] σ2']|] eqn:Hfn; [|done].
    injection Hret as <- <-. split; [done|]. split; [done|].
    destruct (configures_wf (fn nr) (Hcfg nr) σ1 tt σ2' Hwf1 Hfn) as [Hwf2 Hg].
    destruct (Hg nr) as [cg Hcg]; [by eauto|].
    destruct (wf_chain σ2' nr cg Hwf2 Hcg) as (fs & Hfs & _).
    exists cg, fs. split; [done|]. split; [done|].
    intros method q h. by apply Method_spec.
  - intros xs.
    destruct (Use_spec σ1 nr cn xs Hwf1 Hcn) as
      (s' & σ2 & old' & Heq & Hold & Hctx2 & _ & Hs & Hwf2 & _).
    rewrite (chain_lookup σ1 nr cn Hcn), Hold in Hnew. injection Hnew as ->.
    assert (contexts σ2 !! nr = Some (with_middlewares cn s')) as Hcn2
      by (rewrite Hctx2; apply lookup_insert_eq).
    assert (chain σ2 nr = Some (old ++ xs)) as Hch2
      by (by rewrite (chain_lookup σ2 nr _ Hcn2)).
    exists σ2. split; [by rewrite Hcall, Heq|]. split; [done|].
    intros method q h.
    rewrite (Method_spec σ2 nr _ _ method q h Hwf2 Hcn2 Hch2). simpl.
    by rewrite Hpat, Hmux.
Qed.

(** C8: Group and Route add one derived context with the receiver's chain
    (and, for Group, the receiver's prefix), call the function once on it,
    and return that same context; what is registered on the returned
    context afterwards carries what the function configured. *)
Theorem Group_and_Route_return_configured σ r c old pat :
  wf σ → contexts σ !! r = Some c → chain σ r = Some old →
  returns_configured σ c old (pattern c) (Group r) ∧
  returns_configured σ c old (pattern c +:+ pat) (Route r pat).
Proof.
  intros Hwf Hr Hch. split.
  - apply (scope_returns_configured σ r); [done..|].
    intros fn. by apply Group_run.
  - apply (scope_returns_configured σ r); [done..|].
    intros fn. by apply Route_run.
Qed.

End Claims.

(** ** The tests of router_test.go, run on the test double *)

Section Tests.
Import Demo.

Example TestRouter_With_passes :
  fst <$> TestRouter_With empty_heap =
    Some [ body (Some 1) (Some 1) "/v1/health";
           body None (Some 1) "/v2/health" ].
Proof. vm_compute. reflexivity. Qed.

Example TestRouter_Use_passes :
  fst <$> TestRouter_Use empty_heap =
    Some [ body None None "/v1/health";
           body (Some 1) (Some 1) "/v2/health" ].
Proof. vm_compute. reflexivity. Qed.

Example TestRouter_Group_passes :
  fst <$> TestRouter_Group empty_heap =
    Some [ body (Some 2) (Some 1) "/v1/health";
           body (Some 2) (Some 1) "/v2/health";
           body (Some 1) (Some 1) "/v3/health" ].
Proof. vm_compute. reflexivity. Qed.

(** The route is at /v1/health and not at /health. *)
Example TestRouter_Route_passes :
  fst <$> TestRouter_Route empty_heap =
    Some [ body (Some 2) (Some 1) "/v1/health";
           body (Some 2) (Some 1) "/v1/ping";
           None ].
Proof. vm_compute. reflexivity. Qed.

(** The root of [heap0] looks at two of the four cells of array 0, so that the
    next [Use] writes in place. *)
Example heap0_root :
  contexts heap0 !! 0 = Some (RouterContext "" 0 (Slice (Some 0) 2 4)) ∧
  arrays heap0 !! 0 = Some [mw1; mw2; None; None].
Proof. split; reflexivity. Qed.

Lemma heap0_wf : wf heap0.
Proof. apply (bool_decide_unpack _). vm_compute. exact I. Qed.

Example TestRouter_HttpMethods_passes :
  fst <$> TestRouter_HttpMethods empty_heap =
    Some ((λ verb, Some {| body_method := verb; body_url := "/user";
                           body_key1 := None; body_key2 := None |})
          <$> ["CONNECT"; "DELETE"; "GET"; "HEAD"; "OPTIONS"; "PATCH";
               "POST"; "PUT"; "TRACE"]).
Proof. vm_compute. reflexivity. Qed.

(** The first added middleware runs first: its value is set first, and so
    is found last. *)
Example first_added_runs_first :
  fst <$> order_test empty_heap =
    Some (Some {| body_method := "GET"; body_url := "key2,key1";
                  body_key1 := None; body_key2 := None |}).
Proof. vm_compute. reflexivity. Qed.

(** [Use] on the root of [heap0] writes the third cell of the root's array
    in place; the context [With] derived before keeps its chain, which is
    in another array. *)
Example Use_in_place_after_With :
  (a <- With 0 [mw1] ;; Use 0 [mw2] ;;;
   λ σ, Some ((contexts σ !! 0, arrays σ !! 0, chain σ a), σ)) heap0
  ≫= (λ x, Some (fst x))
  = Some (Some (RouterContext "" 0 (Slice (Some 0) 3 4)),
          Some [mw1; mw2; mw2; None],
          Some [mw1; mw2; mw1]).
Proof. reflexivity. Qed.

(** Were the array shared, the same [Use] would change the other chain:
    the invariant is what the independence of the chains rests on, and the
    code keeps it by appending to a nil slice when it derives. *)
Example shared_array_would_alias :
  ¬ wf shared_heap ∧
  chain shared_heap 1 = Some [mw1; mw2; mw1] ∧
  (Use 0 [mw2] shared_heap ≫= λ x, chain (snd x) 1) = Some [mw1; mw2; mw2].
Proof.
  split; [|split; reflexivity].
  intros Hwf. by pose proof (wf_unshared _ Hwf 0 1 _ _ 0 eq_refl eq_refl eq_refl eq_refl).
Qed.

(** A nil middleware makes the registration panic. *)
Example nil_middleware_panics :
  (r <- NewRouter ;; Use r [mw1; None] ;;; Get r "/" handler) empty_heap = None.
Proof. reflexivity. Qed.

End Tests.

(** ** The claims at work on the test double *)

Section Witnesses.
Import Demo.

Lemma Method_composes_chain_witness :
  wf heap0 ∧ contexts heap0 !! 0 = Some root ∧
  chain heap0 0 = Some (Some <$> [k1; k2]) ∧
  muxes heap0 !! 0 = Some [] ∧
  Method 0 "GET" "/v2/health" handler heap0 =
    Some (tt, MkHeap (contexts heap0) (arrays heap0)
                     (<[0 := [("GET /v2/health", k1 (k2 handler))]]>
                        (muxes heap0))).
Proof.
  assert (wf heap0) as Hwf.
  { apply (bool_decide_unpack _). vm_compute. exact I. }
  split; [exact Hwf|]. split; [reflexivity|]. split; [reflexivity|].
  split; [reflexivity|].
  exact (proj1 (Method_composes_chain heap0 0 root [k1; k2] [] "GET"
                  "/v2/health" handler handler Hwf eq_refl eq_refl eq_refl)).
Defined.

Lemma derived_chains_independent_witness :
  wf heap0 ∧ contexts heap0 !! 0 = Some root ∧
  chain heap0 0 = Some [mw1; mw2] ∧
  ∃ nr σ', With 0 [mw1] heap0 = Some (nr, σ') ∧
           chain σ' nr = Some ([mw1; mw2] ++ [mw1]) ∧
           chain σ' 0 = Some [mw1; mw2] ∧
           independent σ' 0 nr.
Proof.
  assert (wf heap0) as Hwf.
  { apply (bool_decide_unpack _). vm_compute. exact I. }
  split; [exact Hwf|]. split; [reflexivity|]. split; [reflexivity|].
  exact (proj1 (derived_chains_independent heap0 0 root [mw1; mw2] [mw1] "/v1"
                  Hwf eq_refl eq_refl)).
Defined.

Lemma With_derives_without_mutation_witness :
  wf heap0 ∧ contexts heap0 !! 0 = Some root ∧
  chain heap0 0 = Some [mw1; mw2] ∧
  ∃ nr σ', With 0 [mw1] heap0 = Some (nr, σ') ∧
           preserved heap0 σ' ∧
           prefix σ' nr = Some "" ∧ table σ' nr = table heap0 0 ∧
           chain σ' nr = Some [mw1; mw2; mw1].
Proof.
  assert (wf heap0) as Hwf.
  { apply (bool_decide_unpack _). vm_compute. exact I. }
  split; [exact Hwf|]. split; [reflexivity|]. split; [reflexivity|].
  destruct (With_derives_without_mutation heap0 0 root [mw1; mw2] [mw1]
              Hwf eq_refl eq_refl) as
    (nr & cn & σ' & HW & _ & Hcn & Hpres & _ & _ & Hpat & _ & Htab & Hch & _).
  exists nr, σ'. split; [exact HW|]. split; [exact Hpres|].
  split; [|split; [exact Htab|exact Hch]].
  unfold prefix. rewrite Hcn. simpl. rewrite Hpat. reflexivity.
Defined.

Lemma Route_concatenates_prefix_witness :
  wf heap0 ∧ contexts heap0 !! 0 = Some root ∧
  chain heap0 0 = Some [mw1; mw2] ∧ muxes heap0 !! 0 = Some [] ∧
  ∃ nr σ1,
    prefix σ1 nr = Some "/v1" ∧
    Route 0 "/v1" (λ x, Get x "/health" handler) heap0 =
      Some (nr, MkHeap (contexts σ1) (arrays σ1)
                       (<[0 := [("GET /v1/health", k1 (k2 handler))]]>
                          (muxes σ1))).
Proof.
  assert (wf heap0) as Hwf.
  { apply (bool_decide_unpack _). vm_compute. exact I. }
  split; [exact Hwf|]. split; [reflexivity|]. split; [reflexivity|].
  split; [reflexivity|].
  destruct (Route_concatenates_prefix heap0 0 root [mw1; mw2] [] "/v1"
              Hwf eq_refl eq_refl eq_refl) as (nr & σ1 & _ & Hpre & _ & _ & HGet).
  exists nr, σ1. split; [exact Hpre|]. exact (HGet "/health" handler).
Defined.

Lemma Method_installs_under_key_witness :
  wf heap0 ∧ contexts heap0 !! 0 = Some root ∧
  chain heap0 0 = Some (Some <$> [k1; k2]) ∧
  muxes heap0 !! 0 = Some [] ∧
  Method 0 "GET" "/x" handler heap0 =
    Some (tt, MkHeap (contexts heap0) (arrays heap0)
                     (<[0 := [("GET /x", k1 (k2 handler))]]> (muxes heap0))) ∧
  Method 0 "" "/x" handler heap0 =
    Some (tt, MkHeap (contexts heap0) (arrays heap0)
                     (<[0 := [("/x", k1 (k2 handler))]]> (muxes heap0))).
Proof.
  assert (wf heap0) as Hwf.
  { apply (bool_decide_unpack _). vm_compute. exact I. }
  split; [exact Hwf|]. split; [reflexivity|]. split; [reflexivity|].
  split; [reflexivity|]. split.
  - assert ("GET" ≠ "") as Hne by discriminate.
    exact (proj1 (Method_installs_under_key heap0 0 root [k1; k2] [] "GET" "/x"
                    handler Hwf eq_refl eq_refl eq_refl) Hne).
  - exact (proj1 (proj2 (Method_installs_under_key heap0 0 root [k1; k2] [] ""
                           "/x" handler Hwf eq_refl eq_refl eq_refl)) eq_refl).
Defined.

Lemma Use_appends_forward_only_witness :
  wf heap0 ∧ contexts heap0 !! 0 = Some root ∧
  chain heap0 0 = Some [mw1; mw2] ∧
  ∃ σ', Use 0 [mw1] heap0 = Some (tt, σ') ∧
        chain σ' 0 = Some ([mw1; mw2] ++ [mw1]) ∧
        muxes σ' = muxes heap0.
Proof.
  assert (wf heap0) as Hwf.
  { apply (bool_decide_unpack _). vm_compute. exact I. }
  split; [exact Hwf|]. split; [reflexivity|]. split; [reflexivity|].
  destruct (Use_appends_forward_only heap0 0 root [mw1; mw2] [mw1]
              Hwf eq_refl eq_refl) as (σ' & HU & Hch & _ & Hmux & _).
  exists σ'. split; [exact HU|]. split; [exact Hch|exact Hmux].
Defined.

Lemma derivation_leaves_table_witness :
  wf heap0 ∧ contexts heap0 !! 0 = Some root ∧
  ∃ nr σ1, Group 0 (λ _, ret tt) heap0 = Some (nr, σ1) ∧
           muxes σ1 = muxes heap0.
Proof.
  assert (wf heap0) as Hwf.
  { apply (bool_decide_unpack _). vm_compute. exact I. }
  split; [exact Hwf|]. split; [reflexivity|].
  destruct (proj1 (proj2 (derivation_leaves_table heap0 0 root [mw1] "/v1"
                            Hwf eq_refl))) as (nr & σ1 & _ & HG & Hmux & _).
  exists nr, σ1. split; [exact HG|exact Hmux].
Defined.

Lemma Group_and_Route_return_configured_witness :
  wf heap0 ∧ contexts heap0 !! 0 = Some root ∧
  chain heap0 0 = Some [mw1; mw2] ∧
  returns_configured heap0 root [mw1; mw2] "" (Group 0) ∧
  returns_configured heap0 root [mw1; mw2] "/v1" (Route 0 "/v1").
Proof.
  assert (wf heap0) as Hwf.
  { apply (bool_decide_unpack _). vm_compute. exact I. }
  split; [exact Hwf|]. split; [reflexivity|]. split; [reflexivity|].
  exact (Group_and_Route_return_configured heap0 0 root [mw1; mw2] "/v1"
           Hwf eq_refl eq_refl).
Defined.

End Witnesses.

(** ** More of router.go: how the calls combine, and what they never do *)

Section Extras.
Context `{NetHTTP, GoRuntime}.
Implicit Types (σ : Heap) (r nr : loc) (s : slice) (c : routerContext).
Implicit Types (xs mws : list func) (ms : list Middleware) (h : Handler).
Implicit Types (hf : HandlerFunc).

Lemma string_app_nil_r (a : string) : a +:+ "" = a.
Proof.
  induction a as [|x a IH]; [done|].
  change (String x (a +:+ "") = String x a). by f_equal.
Qed.

Lemma spec_key_assoc method a b q :
  spec_key method (a +:+ b) q = spec_key method a (b +:+ q).
Proof. unfold spec_key. by rewrite string_app_assoc. Qed.

Lemma registers_Method r pat (op : Go unit) :
  registers r pat op → ∃ method h, op = Method r method pat h.
Proof.
  intros [method h|method hf|helper verb hf Hin]; [by eauto..|].
  eexists _, _. by apply helper_Method.
Qed.

(** [Method] on an allocated receiver, the reads of the receiver done. *)
Lemma Method_run σ r c method pat h :
  contexts σ !! r = Some c →
  Method r method pat h σ =
    match wrap r (len (middlewares c)) h σ with
    | Some (g, _) => mux_Handle (ServeMux c) (spec_key method (pattern c) pat) g σ
    | None => None
    end.
Proof.
  intros Hr. unfold Method. rewrite (bind_eq _ _ _ _ _ (get_eq σ r c Hr)).
  unfold bind at 1.
  destruct (wrap r (len (middlewares c)) h σ) as [[g σ1]|] eqn:Hwrap; [|done].
  apply wrap_heap in Hwrap as ->.
  by rewrite (bind_eq _ _ _ _ _ (get_eq σ r c Hr)), method_key.
Qed.

(** X11: With is Group with a function that calls Use: the two run the same
    statements, on every heap. *)
Theorem With_is_Group_of_Use r mws σ :
  With r mws σ = Group r (λ x, Use x mws) σ.
Proof.
  unfold With, Group, Use, bind.
  destruct (get r σ) as [[c σ0]|]; [|done].
  destruct (new _ σ0) as [[nr σ1]|]; [|done].
  destruct (inherit nr r σ1) as [[[] σ2]|]; [|done].
  destruct (get nr σ2) as [[cn σ3]|]; [|done].
  destruct (append _ mws σ3) as [[s σ4]|]; [|done].
  by destruct (set_middlewares nr s σ4) as [[[] σ5]|].
Qed.

(** X12: Route with the empty pattern is Group, on every heap. *)
Theorem Route_of_empty_pattern_is_Group r fn σ :
  Route r "" fn σ = Group r fn σ.
Proof.
  unfold Route, Group, bind.
  destruct (get r σ) as [[c σ0]|]; [|done].
  by rewrite string_app_nil_r.
Qed.

(** X8: Use without arguments returns and leaves the heap as it is. *)
Theorem Use_of_nothing σ r :
  wf σ → is_Some (contexts σ !! r) → Use r [] σ = Some (tt, σ).
Proof.
  intros Hwf [c Hr]. unfold Use. rewrite (bind_eq _ _ _ _ _ (get_eq σ r c Hr)).
  pose proof (wf_slice σ Hwf r c Hr) as Hok.
  assert (append (middlewares c) [] σ = Some (middlewares c, σ)) as Happ.
  { unfold append. change (length (@nil func)) with 0. rewrite Nat.add_0_r.
    unfold slice_ok in Hok. destruct (middlewares c) as [[a|] l k]; simpl in *.
    - destruct Hok as (cells & Hcells & Hlen & Hle).
      rewrite decide_True by done. rewrite Hcells. simpl.
      rewrite insert_id by done. by destruct σ.
    - by destruct Hok as [-> ->]. }
  rewrite (bind_eq _ _ _ _ _ Happ), (set_middlewares_eq σ r c _ Hr).
  assert (with_middlewares c (middlewares c) = c) as -> by (by destruct c).
  rewrite insert_id by done. by destruct σ.
Qed.

(** X18: on a context with the empty prefix, a registration with the empty
    method under a pattern that is a method, a space and a path is the
    registration with that method under that path. *)
Theorem empty_method_reads_verb_in_pattern σ r c method pat h :
  contexts σ !! r = Some c → pattern c = "" → method ≠ "" →
  Method r "" (method +:+ " " +:+ pat) h σ = Method r method pat h σ.
Proof.
  intros Hr Hpre Hne. rewrite !(Method_run σ r c _ _ h Hr).
  destruct (wrap r (len (middlewares c)) h σ) as [[g σ1]|]; [|done].
  f_equal. unfold spec_key. rewrite Hpre.
  rewrite decide_True by done. by rewrite decide_False.
Qed.

(** X1: NewRouter returns, at a new address, a context with the empty
    prefix, the empty chain and a new, empty mux that no context of the heap
    points to; the contexts of the heap, their chains and their tables are
    as they were. *)
Theorem NewRouter_makes_separate_root σ :
  wf σ →
  ∃ r p σ',
    NewRouter σ = Some (r, σ') ∧ wf σ' ∧
    contexts σ !! r = None ∧
    contexts σ' !! r = Some (RouterContext "" p nil_slice) ∧
    prefix σ' r = Some "" ∧ chain σ' r = Some [] ∧
    table σ' r = Some NewServeMux ∧
    ∀ r' c', contexts σ !! r' = Some c' →
      ServeMux c' ≠ p ∧ contexts σ' !! r' = Some c' ∧
      chain σ' r' = chain σ r' ∧ table σ' r' = table σ r'.
Proof.
  intros Hwf.
  destruct (NewRouter_spec σ Hwf) as
    (r & p & σ' & Heq & Hr & Hp & Hctx & Harr & Hmux & Hwf').
  assert (contexts σ' !! r = Some (RouterContext "" p nil_slice)) as Hr'
    by (rewrite Hctx; apply lookup_insert_eq).
  exists r, p, σ'. split; [done|]. split; [done|]. split; [done|].
  split; [done|]. split; [unfold prefix; by rewrite Hr'|].
  split; [by rewrite (chain_lookup σ' r _ Hr')|].
  split; [unfold table; rewrite Hr', Hmux; apply lookup_insert_eq|].
  intros r' c' Hc'.
  assert (ServeMux c' ≠ p) as Hne.
  { intros <-. destruct (wf_mux σ Hwf r' c' Hc') as [m Hm]. congruence. }
  assert (contexts σ' !! r' = Some c') as Hc''.
  { rewrite Hctx, lookup_insert_ne; [done|]. congruence. }
  split; [done|]. split; [done|]. split.
  - rewrite (chain_lookup σ' r' c' Hc''), (chain_lookup σ r' c' Hc').
    apply elems_of_frame. intros b _. by rewrite Harr.
  - unfold table. rewrite Hc'', Hc'. simpl. rewrite Hmux.
    by apply lookup_insert_ne.
Qed.

(** *** Histories *)

Lemma history_refl σ : history σ σ.
Proof.
  split; [|split].
  - intros r c Hr. by exists c.
  - intros r old Hch. exists []. by rewrite app_nil_r.
  - intros p m Hm. exists m. split; [done|]. apply rtc_refl.
Qed.

Lemma history_trans σ1 σ2 σ3 : history σ1 σ2 → history σ2 σ3 → history σ1 σ3.
Proof.
  intros (Hf1 & Hc1 & Ht1) (Hf2 & Hc2 & Ht2). split; [|split].
  - intros r c Hr. destruct (Hf1 r c Hr) as (c' & Hr' & Hp & Hm).
    destruct (Hf2 r c' Hr') as (c'' & Hr'' & Hp' & Hm').
    exists c''. split; [done|]. split; congruence.
  - intros r old Hch. destruct (Hc1 r old Hch) as (more & Hch').
    destruct (Hc2 r _ Hch') as (more' & Hch'').
    exists (more ++ more'). by rewrite app_assoc.
  - intros p m Hm. destruct (Ht1 p m Hm) as (m' & Hm' & Hh).
    destruct (Ht2 p m' Hm') as (m'' & Hm'' & Hh').
    exists m''. split; [done|]. by apply (rtc_trans m m' m'').
Qed.

(** A step that keeps the contexts, the chains and the muxes there were. *)
Lemma history_frame σ σ' :
  (∀ r c, contexts σ !! r = Some c → contexts σ' !! r = Some c) →
  (∀ r, is_Some (contexts σ !! r) → chain σ' r = chain σ r) →
  (∀ p m, muxes σ !! p = Some m → muxes σ' !! p = Some m) →
  history σ σ'.
Proof.
  intros Hctx Hch Hmux. split; [|split].
  - intros r c Hr. exists c. eauto.
  - intros r old Hold. exists []. rewrite app_nil_r, Hch; [done|].
    unfold chain in Hold. destruct (contexts σ !! r); [by eauto|done].
  - intros p m Hm. exists m. split; [by apply Hmux|apply rtc_refl].
Qed.

Lemma derive_history σ r c p :
  wf σ → contexts σ !! r = Some c →
  ∃ nr σ1, wf σ1 ∧ history σ σ1 ∧
    ∀ A (k : loc → Go A),
      (nr <- new (RouterContext p (ServeMux c) nil_slice) ;;
       inherit nr r ;;; k nr) σ = k nr σ1.
Proof.
  intros Hwf Hr.
  destruct (derive_spec σ r c p Hwf Hr) as
    (nr & s & σ1 & old & Hnr & _ & _ & _ & Hwf1 & (Hkeep & _ & Hmux) & Hchain & _ & Hrun).
  exists nr, σ1. split; [done|]. split; [|done].
  apply history_frame; [done| |by rewrite Hmux].
  intros r' [c' Hr']. apply Hchain. congruence.
Qed.

Lemma configures_history {A} (m : Go A) :
  configures m →
  ∀ σ a σ', wf σ → m σ = Some (a, σ') → history σ σ'.
Proof.
  induction 1 as [A a|A B m k Hm IHm Hk IHk| |r mws|r mws|r fn Hfn IH
                  |r pat fn Hfn IH|r method pat h]; intros σ x σ' Hwf Hrun.
  - unfold ret in Hrun. injection Hrun as <- <-. apply history_refl.
  - unfold bind in Hrun. destruct (m σ) as [[a σ1]|] eqn:Hmσ; [|done].
    destruct (configures_wf m Hm σ a σ1 Hwf Hmσ) as [Hwf1 _].
    apply (history_trans σ σ1 σ'); [by eapply IHm|by eapply IHk].
  - destruct (NewRouter_spec σ Hwf) as
      (r & p & σ2 & Heq & Hr & Hp & Hctx & Harr & Hmux & _).
    rewrite Heq in Hrun. injection Hrun as <- <-.
    assert (∀ r' c', contexts σ !! r' = Some c' → contexts σ2 !! r' = Some c')
      as Hkeep.
    { intros r' c' Hr'. rewrite Hctx, lookup_insert_ne; [done|]. congruence. }
    apply history_frame; [done| |].
    + intros r' [c' Hr'].
      rewrite (chain_lookup σ2 r' c' (Hkeep r' c' Hr')), (chain_lookup σ r' c' Hr').
      apply elems_of_frame. intros b _. by rewrite Harr.
    + intros q m Hq. rewrite Hmux, lookup_insert_ne; [done|]. congruence.
  - destruct (contexts σ !! r) as [c|] eqn:Hr.
    + destruct (Use_spec σ r c mws Hwf Hr) as
        (s' & σ2 & old & Heq & Hold & Hctx & Hmux & Hs & _ & Hchain & _).
      assert (σ' = σ2) as -> by congruence.
      split; [|split].
      * intros r' c' Hr'. rewrite Hctx. destruct (decide (r' = r)) as [->|Hne].
        -- rewrite lookup_insert_eq. eexists. split; [done|].
           assert (c' = c) as -> by congruence. done.
        -- rewrite lookup_insert_ne by done. by exists c'.
      * intros r' old' Hch. destruct (decide (r' = r)) as [->|Hne].
        -- exists mws. rewrite (chain_lookup σ r c Hr), Hold in Hch.
           injection Hch as <-.
           rewrite (chain_lookup σ2 r (with_middlewares c s')); [done|].
           rewrite Hctx. apply lookup_insert_eq.
        -- exists []. by rewrite app_nil_r, Hchain.
      * intros q m Hq. exists m. rewrite Hmux. split; [done|apply rtc_refl].
    + unfold Use in Hrun. by rewrite get_bind_None in Hrun.
  - destruct (contexts σ !! r) as [c|] eqn:Hr.
    + destruct (With_spec σ r c mws Hwf Hr) as
        (nr & s & σ2 & old & Heq & Hnr & _ & _ & _ & _ & (Hkeep & _ & Hmux) & Hchain & _).
      rewrite Heq in Hrun. injection Hrun as <- <-.
      apply history_frame; [done| |by rewrite Hmux].
      intros r' [c' Hr']. apply Hchain. congruence.
    + unfold With in Hrun. by rewrite get_bind_None in Hrun.
  - destruct (contexts σ !! r) as [c|] eqn:Hr.
    + rewrite (Group_run σ r c fn Hr) in Hrun.
      destruct (derive_history σ r c (pattern c) Hwf Hr) as
        (nr & σ1 & Hwf1 & Hh & Heq).
      rewrite Heq in Hrun. unfold bind in Hrun.
      destruct (fn nr σ1) as [[[] σ2]|] eqn:Hfnσ; [|done].
      injection Hrun as <- <-.
      apply (history_trans σ σ1 σ2); [done|by eapply IH].
    + unfold Group in Hrun. by rewrite get_bind_None in Hrun.
  - destruct (contexts σ !! r) as [c|] eqn:Hr.
    + rewrite (Route_run σ r c pat fn Hr) in Hrun.
      destruct (derive_history σ r c (pattern c +:+ pat) Hwf Hr) as
        (nr & σ1 & Hwf1 & Hh & Heq).
      rewrite Heq in Hrun. unfold bind in Hrun.
      destruct (fn nr σ1) as [[[] σ2]|] eqn:Hfnσ; [|done].
      injection Hrun as <- <-.
      apply (history_trans σ σ1 σ2); [done|by eapply IH].
    + unfold Route in Hrun. by rewrite get_bind_None in Hrun.
  - destruct (Method_frame σ r method pat h x σ' Hrun) as
      (Hctx & Harr & c & g & m & m' & Hr & Hm & HH & Hmux).
    split; [|split].
    + intros r' c' Hr'. exists c'. by rewrite Hctx.
    + intros r' old Hch. exists []. rewrite app_nil_r, <- Hch.
      unfold chain, elems_of. by rewrite Hctx, Harr.
    + intros q mq Hq. rewrite Hmux. destruct (decide (q = ServeMux c)) as [->|Hne].
      * rewrite lookup_insert_eq. exists m'. split; [done|].
        assert (mq = m) as -> by congruence.
        apply rtc_once. by exists (spec_key method (pattern c) pat), g.
      * rewrite lookup_insert_ne by done. exists mq. split; [done|apply rtc_refl].
Qed.

(** X4: configuration code never changes the prefix of a context, nor the
    mux it points to, and never frees a context. *)
Theorem configuration_keeps_fields {A} (m : Go A) σ a σ' :
  configures m → wf σ → m σ = Some (a, σ') → fields_kept σ σ'.
Proof. intros Hcfg Hwf Hrun. by destruct (configures_history m Hcfg σ a σ' Hwf Hrun). Qed.

(** X5: configuration code only adds to chains: what a chain was is the
    start of what it is afterwards. *)
Theorem configuration_extends_chains {A} (m : Go A) σ a σ' :
  configures m → wf σ → m σ = Some (a, σ') → chains_extended σ σ'.
Proof.
  intros Hcfg Hwf Hrun.
  by destruct (configures_history m Hcfg σ a σ' Hwf Hrun) as (_ & ? & _).
Qed.

(** X6: configuration code changes a table through calls of Handle only: it
    drops no mux, and what a mux holds afterwards is what calls of Handle
    made of what it held. *)
Theorem configuration_only_calls_Handle {A} (m : Go A) σ a σ' :
  configures m → wf σ → m σ = Some (a, σ') → tables_handled σ σ'.
Proof.
  intros Hcfg Hwf Hrun.
  by destruct (configures_history m Hcfg σ a σ' Hwf Hrun) as (_ & _ & ?).
Qed.

(** X7: the invariant holds in every heap configuration code gets to: from
    a heap where the slices agree with the arrays, every context points to
    a mux and no two contexts look at the same backing array, it gets to
    such a heap only; the heap it builds from nothing is one. *)
Theorem configuration_keeps_invariant {A} (m : Go A) σ a σ' :
  configures m → wf σ → m σ = Some (a, σ') →
  wf σ' ∧ grows σ σ' ∧
  (∀ b σ0, m empty_heap = Some (b, σ0) → wf σ0).
Proof.
  intros Hcfg Hwf Hrun.
  destruct (configures_wf m Hcfg σ a σ' Hwf Hrun) as [Hwf' Hg].
  split; [done|]. split; [done|].
  intros b σ0 Hrun0. by apply (reachable_wf m b σ0).
Qed.

(** *** How the calls combine *)

Lemma Use_chain σ r c old mws :
  wf σ → contexts σ !! r = Some c → chain σ r = Some old →
  ∃ σ' c',
    Use r mws σ = Some (tt, σ') ∧ wf σ' ∧
    contexts σ' !! r = Some c' ∧
    pattern c' = pattern c ∧ ServeMux c' = ServeMux c ∧
    chain σ' r = Some (old ++ mws) ∧ muxes σ' = muxes σ ∧
    ∀ r', r' ≠ r →
      contexts σ' !! r' = contexts σ !! r' ∧ chain σ' r' = chain σ r'.
Proof.
  intros Hwf Hr Hch.
  destruct (Use_spec σ r c mws Hwf Hr) as
    (s' & σ' & old' & Heq & Hold & Hctx & Hmux & Hs & Hwf' & Hchain & _).
  rewrite (chain_lookup σ r c Hr), Hold in Hch. injection Hch as ->.
  assert (contexts σ' !! r = Some (with_middlewares c s')) as Hr'
    by (rewrite Hctx; apply lookup_insert_eq).
  exists σ', (with_middlewares c s'). split; [done|]. split; [done|].
  split; [done|]. split; [done|]. split; [done|].
  split; [by rewrite (chain_lookup σ' r _ Hr')|]. split; [done|].
  intros r' Hne. split; [|by apply Hchain].
  rewrite Hctx. by apply lookup_insert_ne.
Qed.

Lemma With_chain σ r c old mws :
  wf σ → contexts σ !! r = Some c → chain σ r = Some old →
  ∃ nr cn σ',
    With r mws σ = Some (nr, σ') ∧ wf σ' ∧
    contexts σ !! nr = None ∧ contexts σ' !! nr = Some cn ∧
    pattern cn = pattern c ∧ ServeMux cn = ServeMux c ∧
    chain σ' nr = Some (old ++ mws) ∧ muxes σ' = muxes σ.
Proof.
  intros Hwf Hr Hch.
  destruct (With_spec σ r c mws Hwf Hr) as
    (nr & s & σ' & old' & Heq & Hnr & Hold & Hctx & Hs & Hwf' & (_ & _ & Hmux) & _).
  rewrite (chain_lookup σ r c Hr), Hold in Hch. injection Hch as ->.
  assert (contexts σ' !! nr = Some (RouterContext (pattern c) (ServeMux c) s))
    as Hcn by (rewrite Hctx; apply lookup_insert_eq).
  exists nr, (RouterContext (pattern c) (ServeMux c) s), σ'.
  split; [done|]. split; [done|]. split; [done|]. split; [done|].
  split; [done|]. split; [done|].
  split; [by rewrite (chain_lookup σ' nr _ Hcn)|done].
Qed.

Lemma table_lookup σ r c :
  contexts σ !! r = Some c → table σ r = muxes σ !! ServeMux c.
Proof. intros Hr. unfold table. by rewrite Hr. Qed.

(** X9: two calls of Use in a row leave the chain that one call with all the
    arguments leaves, and the same muxes, contexts and chains elsewhere. *)
Theorem Use_twice_is_Use_of_both σ r c old xs ys :
  wf σ → contexts σ !! r = Some c → chain σ r = Some old →
  ∃ σ1 σ2,
    (Use r xs ;;; Use r ys) σ = Some (tt, σ1) ∧
    Use r (xs ++ ys) σ = Some (tt, σ2) ∧
    chain σ1 r = Some (old ++ xs ++ ys) ∧
    chain σ2 r = Some (old ++ xs ++ ys) ∧
    muxes σ1 = muxes σ2 ∧
    ∀ r', r' ≠ r →
      contexts σ1 !! r' = contexts σ2 !! r' ∧ chain σ1 r' = chain σ2 r'.
Proof.
  intros Hwf Hr Hch.
  destruct (Use_chain σ r c old xs Hwf Hr Hch) as
    (σa & ca & Ha & Hwfa & Hra & _ & _ & Hcha & Hma & Hoa).
  destruct (Use_chain σa r ca (old ++ xs) ys Hwfa Hra Hcha) as
    (σ1 & c1 & H1 & _ & _ & _ & _ & Hch1 & Hm1 & Ho1).
  destruct (Use_chain σ r c old (xs ++ ys) Hwf Hr Hch) as
    (σ2 & c2 & H2 & _ & _ & _ & _ & Hch2 & Hm2 & Ho2).
  exists σ1, σ2. split; [by rewrite (bind_eq _ _ _ _ _ Ha)|].
  split; [done|]. split; [by rewrite <- app_assoc in Hch1|].
  split; [done|]. split; [congruence|].
  intros r' Hne.
  destruct (Ho1 r' Hne) as [-> ->]. destruct (Hoa r' Hne) as [-> ->].
  by destruct (Ho2 r' Hne) as [-> ->].
Qed.

(** X10: With on what With returned gives a context with the prefix, the
    table and the chain of the context that one With with all the arguments
    gives. *)
Theorem With_of_With_is_With_of_both σ r c old xs ys :
  wf σ → contexts σ !! r = Some c → chain σ r = Some old →
  ∃ b σ2 d σ3,
    (a <- With r xs ;; With a ys) σ = Some (b, σ2) ∧
    With r (xs ++ ys) σ = Some (d, σ3) ∧
    chain σ2 b = Some (old ++ xs ++ ys) ∧
    chain σ3 d = Some (old ++ xs ++ ys) ∧
    prefix σ2 b = Some (pattern c) ∧ prefix σ3 d = Some (pattern c) ∧
    table σ2 b = table σ r ∧ table σ3 d = table σ r.
Proof.
  intros Hwf Hr Hch.
  destruct (With_chain σ r c old xs Hwf Hr Hch) as
    (a & ca & σ1 & Ha & Hwf1 & _ & Hca & Hpa & Hma & Hcha & Hmux1).
  destruct (With_chain σ1 a ca (old ++ xs) ys Hwf1 Hca Hcha) as
    (b & cb & σ2 & Hb & _ & _ & Hcb & Hpb & Hmb & Hchb & Hmux2).
  destruct (With_chain σ r c old (xs ++ ys) Hwf Hr Hch) as
    (d & cd & σ3 & Hd & _ & _ & Hcd & Hpd & Hmd & Hchd & Hmux3).
  exists b, σ2, d, σ3. split; [by rewrite (bind_eq _ _ _ _ _ Ha)|].
  split; [done|]. split; [by rewrite <- app_assoc in Hchb|]. split; [done|].
  split; [unfold prefix; rewrite Hcb; simpl; congruence|].
  split; [unfold prefix; rewrite Hcd; simpl; congruence|].
  rewrite (table_lookup σ2 b cb Hcb), (table_lookup σ3 d cd Hcd),
    (table_lookup σ r c Hr).
  split; congruence.
Qed.

(** X13: Route inside the function of a Route runs its own function on a
    context whose prefix is the receiver's prefix and the two patterns one
    after the other, and which has the receiver's chain and table: as one
    Route with the two patterns joined does. *)
Theorem Route_in_Route_joins_patterns σ r c old p1 p2 :
  wf σ → contexts σ !! r = Some c → chain σ r = Some old →
  ∃ a b σ2 d σ3,
    (∀ fn, Route r p1 (λ x, Route x p2 fn ;;; ret tt) σ = (fn b ;;; ret a) σ2) ∧
    (∀ fn, Route r (p1 +:+ p2) fn σ = (fn d ;;; ret d) σ3) ∧
    prefix σ2 b = Some (pattern c +:+ p1 +:+ p2) ∧
    prefix σ3 d = Some (pattern c +:+ p1 +:+ p2) ∧
    chain σ2 b = Some old ∧ chain σ3 d = Some old ∧
    table σ2 b = table σ r ∧ table σ3 d = table σ r.
Proof.
  intros Hwf Hr Hch.
  destruct (derive_chain σ r c (pattern c +:+ p1) old Hwf Hr Hch) as
    (a & ca & σ1 & _ & Hctx1 & Hpa & Hma & _ & Hwf1 & (_ & _ & Hmux1) & Hcha & _ & _ & Hrun1).
  assert (contexts σ1 !! a = Some ca) as Hca
    by (rewrite Hctx1; apply lookup_insert_eq).
  destruct (derive_chain σ1 a ca (pattern ca +:+ p2) old Hwf1 Hca Hcha) as
    (b & cb & σ2 & _ & Hctx2 & Hpb & Hmb & _ & _ & (_ & _ & Hmux2) & Hchb & _ & _ & Hrun2).
  assert (contexts σ2 !! b = Some cb) as Hcb
    by (rewrite Hctx2; apply lookup_insert_eq).
  destruct (derive_chain σ r c (pattern c +:+ p1 +:+ p2) old Hwf Hr Hch) as
    (d & cd & σ3 & _ & Hctx3 & Hpd & Hmd & _ & _ & (_ & _ & Hmux3) & Hchd & _ & _ & Hrun3).
  assert (contexts σ3 !! d = Some cd) as Hcd
    by (rewrite Hctx3; apply lookup_insert_eq).
  exists a, b, σ2, d, σ3. split.
  { intros fn. rewrite (Route_run σ r c p1 _ Hr), Hrun1.
    unfold bind at 1 2. rewrite (Route_run σ1 a ca p2 fn Hca), Hrun2.
    unfold bind. by destruct (fn b σ2) as [[[] σ']|]. }
  split.
  { intros fn. rewrite (Route_run σ r c (p1 +:+ p2) fn Hr). apply Hrun3. }
  split.
  { unfold prefix. rewrite Hcb. simpl. by rewrite Hpb, Hpa, string_app_assoc. }
  split; [unfold prefix; rewrite Hcd; simpl; by rewrite Hpd|].
  split; [done|]. split; [done|].
  rewrite (table_lookup σ2 b cb Hcb), (table_lookup σ3 d cd Hcd),
    (table_lookup σ r c Hr).
  split; congruence.
Qed.

Lemma apply_funcs_cons (f : func) (fs : list func) h :
  apply_funcs (f :: fs) h = (next ← apply_funcs fs h; m ← f; Some (m next)).
Proof. done. Qed.

Lemma apply_funcs_app (fs1 fs2 : list func) h :
  apply_funcs (fs1 ++ fs2) h = apply_funcs fs2 h ≫= apply_funcs fs1.
Proof.
  induction fs1 as [|f fs1 IH].
  - change ([] ++ fs2) with fs2. by destruct (apply_funcs fs2 h).
  - rewrite <- app_comm_cons, apply_funcs_cons, IH.
    by destruct (apply_funcs fs2 h).
Qed.

Lemma apply_funcs_nil (fs : list func) h :
  None ∈ fs → apply_funcs fs h = None.
Proof.
  intros Hin. apply list_elem_of_split in Hin as (fs1 & fs2 & ->).
  rewrite apply_funcs_app, apply_funcs_cons.
  by destruct (apply_funcs fs2 h).
Qed.

(** Two registrations that hand the same key and the same handler to muxes
    with the same contents leave the same muxes. *)
Lemma Method_tables_eq σ1 σ2 r1 r2 c1 c2 fs1 fs2 m1 m2 q1 q2 h1 h2 :
  wf σ1 → wf σ2 →
  contexts σ1 !! r1 = Some c1 → contexts σ2 !! r2 = Some c2 →
  chain σ1 r1 = Some fs1 → chain σ2 r2 = Some fs2 →
  ServeMux c1 = ServeMux c2 → muxes σ1 = muxes σ2 →
  spec_key m1 (pattern c1) q1 = spec_key m2 (pattern c2) q2 →
  apply_funcs fs1 h1 = apply_funcs fs2 h2 →
  tables (Method r1 m1 q1 h1 σ1) = tables (Method r2 m2 q2 h2 σ2).
Proof.
  intros Hwf1 Hwf2 Hr1 Hr2 Hch1 Hch2 Hmux Hmuxes Hkey Hfs.
  rewrite (Method_spec σ1 r1 c1 fs1 m1 q1 h1 Hwf1 Hr1 Hch1).
  rewrite (Method_spec σ2 r2 c2 fs2 m2 q2 h2 Hwf2 Hr2 Hch2).
  rewrite Hfs, Hkey, Hmux.
  destruct (apply_funcs fs2 h2) as [g|]; [|done]. simpl.
  unfold mux_Handle. rewrite Hmuxes.
  destruct (muxes σ2 !! ServeMux c2) as [m|]; [|done]. simpl.
  by destruct (Handle _ g m) as [m'|].
Qed.

(** X14: a Route whose function registers a pattern leaves the tables that
    the registration of the two patterns joined, on the receiver itself,
    leaves. *)
Theorem Route_of_Method_is_Method_of_joined_pattern σ r c p method q h :
  wf σ → contexts σ !! r = Some c →
  tables (Route r p (λ x, Method x method q h) σ)
  = tables (Method r method (p +:+ q) h σ).
Proof.
  intros Hwf Hr. destruct (wf_chain σ r c Hwf Hr) as (old & Hch & _).
  destruct (derive_chain σ r c (pattern c +:+ p) old Hwf Hr Hch) as
    (nr & cn & σ1 & _ & Hctx & Hp & Hm & _ & Hwf1 & (_ & _ & Hmux) & Hchn & _ & _ & Hrun).
  assert (contexts σ1 !! nr = Some cn) as Hcn
    by (rewrite Hctx; apply lookup_insert_eq).
  rewrite (Route_run σ r c p _ Hr), Hrun.
  transitivity (tables (Method nr method q h σ1)).
  { unfold bind. by destruct (Method nr method q h σ1) as [[[] σ2]|]. }
  apply (Method_tables_eq σ1 σ nr r cn c old old); try done.
  by rewrite Hp, spec_key_assoc.
Qed.

(** With middlewares that only wrap, middleware given to With or to Use
    before a registration does what wrapping the handler by hand does. *)
Lemma wrapping_by_hand σ r c mws method pat h :
  wf σ → contexts σ !! r = Some c →
  tables ((nr <- With r mws ;; Method nr method pat h) σ)
  = (g ← apply_funcs mws h; tables (Method r method pat g σ)) ∧
  tables ((Use r mws ;;; Method r method pat h) σ)
  = (g ← apply_funcs mws h; tables (Method r method pat g σ)).
Proof.
  intros Hwf Hr. destruct (wf_chain σ r c Hwf Hr) as (old & Hch & _).
  assert (∀ σ' r' c',
    wf σ' → contexts σ' !! r' = Some c' → chain σ' r' = Some (old ++ mws) →
    pattern c' = pattern c → ServeMux c' = ServeMux c → muxes σ' = muxes σ →
    tables (Method r' method pat h σ')
    = (g ← apply_funcs mws h; tables (Method r method pat g σ))) as Hsame.
  { intros σ' r' c' Hwf' Hr' Hch' Hp Hm Hmux.
    destruct (apply_funcs mws h) as [g|] eqn:Hg; simpl.
    - apply (Method_tables_eq σ' σ r' r c' c (old ++ mws) old); try done.
      + by rewrite Hp.
      + by rewrite apply_funcs_app, Hg.
    - rewrite (Method_spec σ' r' c' _ method pat h Hwf' Hr' Hch').
      by rewrite apply_funcs_app, Hg. }
  split.
  - destruct (With_chain σ r c old mws Hwf Hr Hch) as
      (nr & cn & σ' & HW & Hwf' & _ & Hcn & Hp & Hm & Hchn & Hmux).
    rewrite (bind_eq _ _ _ _ _ HW). by apply (Hsame σ' nr cn).
  - destruct (Use_chain σ r c old mws Hwf Hr Hch) as
      (σ' & c' & HU & Hwf' & Hr' & Hp & Hm & Hch' & Hmux & _).
    rewrite (bind_eq _ _ _ _ _ HU). by apply (Hsame σ' r c').
Qed.

(** X16: Use takes a nil middleware without complaint; from then on every
    registration on the context panics, and so does every registration on a
    context derived from it. *)
Theorem nil_middleware_panics_at_registration σ r c mws :
  wf σ → contexts σ !! r = Some c → None ∈ mws →
  ∃ σ',
    Use r mws σ = Some (tt, σ') ∧
    (∀ pat op, registers r pat op → op σ' = None) ∧
    (∀ xs nr σ2 pat op,
       With r xs σ' = Some (nr, σ2) → registers nr pat op → op σ2 = None).
Proof.
  intros Hwf Hr Hnil. destruct (wf_chain σ r c Hwf Hr) as (old & Hch & _).
  destruct (Use_chain σ r c old mws Hwf Hr Hch) as
    (σ' & c' & HU & Hwf' & Hr' & _ & _ & Hch' & _).
  assert (∀ σ0 r0 c0 fs pat op,
    wf σ0 → contexts σ0 !! r0 = Some c0 → chain σ0 r0 = Some fs →
    None ∈ fs → registers r0 pat op → op σ0 = None) as Hpanic.
  { intros σ0 r0 c0 fs pat op Hwf0 Hr0 Hch0 Hin Hop.
    destruct (registers_Method r0 pat op Hop) as (method & h & ->).
    rewrite (Method_spec σ0 r0 c0 fs method pat h Hwf0 Hr0 Hch0).
    by rewrite apply_funcs_nil. }
  exists σ'. split; [done|]. split.
  - intros pat op. apply (Hpanic σ' r c' (old ++ mws)); [done..|].
    apply elem_of_app. by right.
  - intros xs nr σ2 pat op HW.
    destruct (With_chain σ' r c' (old ++ mws) xs Hwf' Hr' Hch') as
      (nr' & cn & σ2' & HW' & Hwf2 & _ & Hcn & _ & _ & Hchn & _).
    rewrite HW' in HW. injection HW as <- <-.
    apply (Hpanic σ2' nr' cn ((old ++ mws) ++ xs)); [done..|].
    apply elem_of_app. left. apply elem_of_app. by right.
Qed.

(** X17: two contexts that With derives from one context have its prefix
    and its table, each the parent's chain followed by its own arguments,
    and from then on, whatever configuration code runs, a Use on one does
    not change the chain of the other. *)
Theorem siblings_are_independent σ r c old xs ys :
  wf σ → contexts σ !! r = Some c → chain σ r = Some old →
  ∃ a b σ2,
    (a <- With r xs ;; b <- With r ys ;; ret (a, b)) σ = Some ((a, b), σ2) ∧
    a ≠ b ∧
    chain σ2 a = Some (old ++ xs) ∧ chain σ2 b = Some (old ++ ys) ∧
    prefix σ2 a = Some (pattern c) ∧ prefix σ2 b = Some (pattern c) ∧
    table σ2 a = table σ r ∧ table σ2 b = table σ r ∧
    independent σ2 a b.
Proof.
  intros Hwf Hr Hch.
  destruct (With_spec σ r c xs Hwf Hr) as
    (a & sa & σ1 & old' & Ha & Hna & Hold & Hctx1 & Hsa & Hwf1 & (Hkeep1 & _ & Hmux1) & Hch1 & _).
  rewrite (chain_lookup σ r c Hr), Hold in Hch. injection Hch as ->.
  assert (contexts σ1 !! a = Some (RouterContext (pattern c) (ServeMux c) sa))
    as Hca by (rewrite Hctx1; apply lookup_insert_eq).
  assert (chain σ1 a = Some (old ++ xs)) as Hcha
    by (by rewrite (chain_lookup σ1 a _ Hca)).
  assert (contexts σ1 !! r = Some c) as Hr1 by (by apply Hkeep1).
  destruct (With_spec σ1 r c ys Hwf1 Hr1) as
    (b & sb & σ2 & old2 & Hb & Hnb & Hold2 & Hctx2 & Hsb & Hwf2 & (Hkeep2 & _ & Hmux2) & Hch2 & _).
  assert (elems_of σ1 (middlewares c) = Some old) as Hold1.
  { rewrite <- (chain_lookup σ1 r c Hr1), Hch1 by congruence.
    by rewrite (chain_lookup σ r c Hr). }
  rewrite Hold1 in Hold2. injection Hold2 as <-.
  assert (a ≠ b) as Hne by congruence.
  assert (contexts σ2 !! b = Some (RouterContext (pattern c) (ServeMux c) sb))
    as Hcb by (rewrite Hctx2; apply lookup_insert_eq).
  assert (contexts σ2 !! a = Some (RouterContext (pattern c) (ServeMux c) sa))
    as Hca2 by (by apply Hkeep2).
  exists a, b, σ2.
  split.
  { rewrite (bind_eq _ _ _ _ _ Ha). by rewrite (bind_eq _ _ _ _ _ Hb). }
  split; [done|]. split; [by rewrite (Hch2 a Hne)|].
  split; [by rewrite (chain_lookup σ2 b _ Hcb)|].
  split; [unfold prefix; by rewrite Hca2|].
  split; [unfold prefix; by rewrite Hcb|].
  rewrite (table_lookup σ2 a _ Hca2), (table_lookup σ2 b _ Hcb),
    (table_lookup σ r c Hr). simpl.
  split; [congruence|]. split; [congruence|].
  apply independent_wf; [done..|by eauto|by eauto].
Qed.

End Extras.

(** ** These at work on the test double *)

Section ExtraWitnesses.
Import Demo.

Lemma NewRouter_makes_separate_root_witness :
  wf heap0 ∧
  ∃ r σ', NewRouter heap0 = Some (r, σ') ∧ contexts heap0 !! r = None ∧
          prefix σ' r = Some "" ∧ chain σ' r = Some [] ∧
          table σ' r = Some [].
Proof.
  assert (wf heap0) as Hwf.
  { apply (bool_decide_unpack _). vm_compute. exact I. }
  split; [exact Hwf|].
  destruct (NewRouter_makes_separate_root heap0 Hwf) as
    (r & p & σ' & HN & _ & Hr & _ & Hp & Hc & Ht & _).
  exists r, σ'. split; [exact HN|]. split; [exact Hr|].
  split; [exact Hp|]. split; [exact Hc|exact Ht].
Defined.

Lemma configuration_keeps_fields_witness :
  configures (Use 0 [mw1]) ∧ wf heap0 ∧
  Use 0 [mw1] heap0 = Some (tt, heap2) ∧ fields_kept heap0 heap2.
Proof.
  assert (wf heap0) as Hwf.
  { apply (bool_decide_unpack _). vm_compute. exact I. }
  split; [apply cfg_Use|]. split; [exact Hwf|]. split; [reflexivity|].
  exact (configuration_keeps_fields (Use 0 [mw1]) heap0 tt heap2
           (cfg_Use 0 [mw1]) Hwf eq_refl).
Defined.

Lemma configuration_extends_chains_witness :
  configures (Use 0 [mw1]) ∧ wf heap0 ∧
  Use 0 [mw1] heap0 = Some (tt, heap2) ∧ chains_extended heap0 heap2.
Proof.
  assert (wf heap0) as Hwf.
  { apply (bool_decide_unpack _). vm_compute. exact I. }
  split; [apply cfg_Use|]. split; [exact Hwf|]. split; [reflexivity|].
  exact (configuration_extends_chains (Use 0 [mw1]) heap0 tt heap2
           (cfg_Use 0 [mw1]) Hwf eq_refl).
Defined.

Lemma configuration_only_calls_Handle_witness :
  configures (Get 1 "/x" handler) ∧ wf heap4 ∧
  Get 1 "/x" handler heap4 = Some (tt, heap5) ∧ tables_handled heap4 heap5.
Proof.
  assert (wf heap4) as Hwf.
  { apply (bool_decide_unpack _). vm_compute. exact I. }
  assert (configures (Get (H:=http) 1 "/x" handler)) as Hcfg.
  { exact (@cfg_Method http runtime 1 "GET" "/x" handler). }
  split; [exact Hcfg|]. split; [exact Hwf|]. split; [reflexivity|].
  exact (configuration_only_calls_Handle (Get (H:=http) 1 "/x" handler)
           heap4 tt heap5 Hcfg Hwf eq_refl).
Defined.

Lemma configuration_keeps_invariant_witness :
  configures (With 0 [mw1]) ∧ wf heap0 ∧
  With 0 [mw1] heap0 = Some (1, heap4) ∧ wf heap4 ∧ grows heap0 heap4.
Proof.
  assert (wf heap0) as Hwf.
  { apply (bool_decide_unpack _). vm_compute. exact I. }
  assert (With 0 [mw1] heap0 = Some (1, heap4)) as Hrun by reflexivity.
  split; [apply cfg_With|]. split; [exact Hwf|]. split; [exact Hrun|].
  destruct (configuration_keeps_invariant (With 0 [mw1]) heap0 1 heap4
              (cfg_With 0 [mw1]) Hwf Hrun) as (Hwf4 & Hg & _).
  split; [exact Hwf4|exact Hg].
Defined.

Lemma Use_of_nothing_witness :
  wf heap0 ∧ is_Some (contexts heap0 !! 0) ∧ Use 0 [] heap0 = Some (tt, heap0).
Proof.
  assert (wf heap0) as Hwf.
  { apply (bool_decide_unpack _). vm_compute. exact I. }
  assert (is_Some (contexts heap0 !! 0)) as Hr by (exists root; reflexivity).
  split; [exact Hwf|]. split; [exact Hr|].
  exact (Use_of_nothing heap0 0 Hwf Hr).
Defined.

Lemma Use_twice_is_Use_of_both_witness :
  wf heap0 ∧ contexts heap0 !! 0 = Some root ∧
  chain heap0 0 = Some [mw1; mw2] ∧
  ∃ σ1 σ2,
    (Use 0 [mw1] ;;; Use 0 [mw2]) heap0 = Some (tt, σ1) ∧
    Use 0 [mw1; mw2] heap0 = Some (tt, σ2) ∧
    chain σ1 0 = Some [mw1; mw2; mw1; mw2] ∧
    chain σ2 0 = Some [mw1; mw2; mw1; mw2].
Proof.
  assert (wf heap0) as Hwf.
  { apply (bool_decide_unpack _). vm_compute. exact I. }
  split; [exact Hwf|]. split; [reflexivity|]. split; [reflexivity|].
  destruct (Use_twice_is_Use_of_both heap0 0 root [mw1; mw2] [mw1] [mw2]
              Hwf eq_refl eq_refl) as (σ1 & σ2 & H1 & H2 & Hc1 & Hc2 & _).
  exists σ1, σ2. split; [exact H1|]. split; [exact H2|].
  split; [exact Hc1|exact Hc2].
Defined.

Lemma With_of_With_is_With_of_both_witness :
  wf heap0 ∧ contexts heap0 !! 0 = Some root ∧
  chain heap0 0 = Some [mw1; mw2] ∧
  ∃ b σ2 d σ3,
    (a <- With 0 [mw1] ;; With a [mw2]) heap0 = Some (b, σ2) ∧
    With 0 [mw1; mw2] heap0 = Some (d, σ3) ∧
    chain σ2 b = Some [mw1; mw2; mw1; mw2] ∧
    chain σ3 d = Some [mw1; mw2; mw1; mw2].
Proof.
  assert (wf heap0) as Hwf.
  { apply (bool_decide_unpack _). vm_compute. exact I. }
  split; [exact Hwf|]. split; [reflexivity|]. split; [reflexivity|].
  destruct (With_of_With_is_With_of_both heap0 0 root [mw1; mw2] [mw1] [mw2]
              Hwf eq_refl eq_refl) as
    (b & σ2 & d & σ3 & H1 & H2 & Hc1 & Hc2 & _).
  exists b, σ2, d, σ3. split; [exact H1|]. split; [exact H2|].
  split; [exact Hc1|exact Hc2].
Defined.

Lemma Route_in_Route_joins_patterns_witness :
  wf heap0 ∧ contexts heap0 !! 0 = Some root ∧
  chain heap0 0 = Some [mw1; mw2] ∧
  ∃ a b σ2,
    (∀ fn, Route 0 "/v1" (λ x, Route x "/users" fn ;;; ret tt) heap0
           = (fn b ;;; ret a) σ2) ∧
    prefix σ2 b = Some "/v1/users" ∧ chain σ2 b = Some [mw1; mw2].
Proof.
  assert (wf heap0) as Hwf.
  { apply (bool_decide_unpack _). vm_compute. exact I. }
  split; [exact Hwf|]. split; [reflexivity|]. split; [reflexivity|].
  destruct (Route_in_Route_joins_patterns heap0 0 root [mw1; mw2] "/v1" "/users"
              Hwf eq_refl eq_refl) as
    (a & b & σ2 & d & σ3 & H1 & _ & Hp & _ & Hc & _).
  exists a, b, σ2. split; [exact H1|]. split; [exact Hp|exact Hc].
Defined.

Lemma Route_of_Method_is_Method_of_joined_pattern_witness :
  wf heap0 ∧ contexts heap0 !! 0 = Some root ∧
  tables (Route 0 "/v1" (λ x, Method x "GET" "/health" handler) heap0)
  = tables (Method 0 "GET" "/v1/health" handler heap0).
Proof.
  assert (wf heap0) as Hwf.
  { apply (bool_decide_unpack _). vm_compute. exact I. }
  split; [exact Hwf|]. split; [reflexivity|].
  exact (Route_of_Method_is_Method_of_joined_pattern heap0 0 root "/v1" "GET"
           "/health" handler Hwf eq_refl).
Defined.

Lemma nil_middleware_panics_at_registration_witness :
  wf heap0 ∧ contexts heap0 !! 0 = Some root ∧ None ∈ [mw1; None] ∧
  ∃ σ', Use 0 [mw1; None] heap0 = Some (tt, σ') ∧
        Get 0 "/x" handler σ' = None.
Proof.
  assert (wf heap0) as Hwf.
  { apply (bool_decide_unpack _). vm_compute. exact I. }
  assert (@None Middleware ∈ [mw1; None]) as Hin.
  { apply list_elem_of_further. apply list_elem_of_here. }
  split; [exact Hwf|]. split; [reflexivity|]. split; [exact Hin|].
  destruct (nil_middleware_panics_at_registration heap0 0 root [mw1; None]
              Hwf eq_refl Hin) as (σ' & HU & Hpanic & _).
  exists σ'. split; [exact HU|].
  apply (Hpanic "/x").
  apply (@reg_helper http 0 "/x" Get "GET" handler).
  do 2 apply list_elem_of_further. apply list_elem_of_here.
Defined.

Lemma empty_method_reads_verb_in_pattern_witness :
  contexts heap0 !! 0 = Some root ∧ pattern root = "" ∧ "GET" ≠ "" ∧
  Method 0 "" "GET /x" handler heap0 = Method 0 "GET" "/x" handler heap0.
Proof.
  assert ("GET" ≠ "") as Hne by discriminate.
  split; [reflexivity|]. split; [reflexivity|]. split; [exact Hne|].
  exact (empty_method_reads_verb_in_pattern heap0 0 root "GET" "/x" handler
           eq_refl eq_refl Hne).
Defined.

Lemma siblings_are_independent_witness :
  wf heap0 ∧ contexts heap0 !! 0 = Some root ∧
  chain heap0 0 = Some [mw1; mw2] ∧
  ∃ a b σ2,
    (a <- With 0 [mw1] ;; b <- With 0 [mw2] ;; ret (a, b)) heap0
      = Some ((a, b), σ2) ∧
    a ≠ b ∧
    chain σ2 a = Some [mw1; mw2; mw1] ∧ chain σ2 b = Some [mw1; mw2; mw2] ∧
    independent σ2 a b.
Proof.
  assert (wf heap0) as Hwf.
  { apply (bool_decide_unpack _). vm_compute. exact I. }
  split; [exact Hwf|]. split; [reflexivity|]. split; [reflexivity|].
  destruct (siblings_are_independent heap0 0 root [mw1; mw2] [mw1] [mw2]
              Hwf eq_refl eq_refl) as
    (a & b & σ2 & Hrun & Hne & Ha & Hb & _ & _ & _ & _ & Hind).
  exists a, b, σ2. split; [exact Hrun|]. split; [exact Hne|].
  split; [exact Ha|]. split; [exact Hb|exact Hind].
Defined.

End ExtraWitnesses.

(** ** Registration with middleware that runs code *)

Section ReentrantProofs.
Context `{NetHTTP, GoRuntime}.
Variable effect : Middleware → Handler → Go unit.
Implicit Types (σ : Heap) (r nr : loc) (s : slice) (c : routerContext).
Implicit Types (fs xs mws : list func) (h : Handler).

(** An element read leaves the heap as it is, and is the element of the
    chain at that place. *)
Lemma index_inv σ s i f σ1 :
  index s i σ = Some (f, σ1) →
  σ1 = σ ∧ ∀ fs, elems_of σ s = Some fs → fs !! i = Some f.
Proof.
  unfold index, elems_of. destruct (decide (i < len s)) as [Hi|]; [|done].
  destruct (array s) as [a|]; simpl; [|done].
  destruct (arrays σ !! a) as [cells|]; simpl; [|done].
  destruct (cells !! i) as [f'|] eqn:Hf; simpl; [|done].
  intros [= <- <-]. split; [done|].
  intros fs [= <-]. by rewrite lookup_take_lt.
Qed.

Lemma lookup_chain_elem fs i (f : func) : fs !! i = Some f → f ∈ fs.
Proof. intros Hf. apply list_elem_of_lookup. eauto. Qed.

(** With middlewares that leave the heap alone, so does the loop. *)
Lemma Reentrant_wrap_harmless σ r c fs :
  contexts σ !! r = Some c → chain σ r = Some fs →
  (∀ m, Some m ∈ fs → Reentrant.harmless effect m) →
  ∀ n h h' σ', Reentrant.wrap effect r n h σ = Some (h', σ') → σ' = σ.
Proof.
  intros Hr Hch Hfs. rewrite (chain_lookup σ r c Hr) in Hch.
  induction n as [|i IH]; intros h h' σ'; simpl.
  - unfold ret. congruence.
  - rewrite (bind_eq _ _ _ _ _ (get_eq σ r c Hr)). unfold bind at 1.
    destruct (index (middlewares c) i σ) as [[f σ1]|] eqn:Hidx; [|done].
    apply index_inv in Hidx as [-> Hf]. specialize (Hf fs Hch).
    unfold bind at 1. destruct f as [m|]; simpl; [|done].
    unfold bind at 1.
    destruct (effect m h σ) as [[u σ2]|] eqn:He; [|done].
    apply (Hfs m (lookup_chain_elem fs i _ Hf)) in He as ->.
    apply IH.
Qed.

(** With middlewares that only wrap, the loop is the loop of [wrap] and the
    registration that of [Method]. *)
Lemma Reentrant_wrap_quiet σ r c fs :
  contexts σ !! r = Some c → chain σ r = Some fs →
  (∀ m, Some m ∈ fs → Reentrant.quiet effect m) →
  ∀ n h, Reentrant.wrap effect r n h σ = wrap r n h σ.
Proof.
  intros Hr Hch Hfs. rewrite (chain_lookup σ r c Hr) in Hch.
  induction n as [|i IH]; intros h; simpl; [done|].
  rewrite !(bind_eq _ _ _ _ _ (get_eq σ r c Hr)). unfold bind at 1 3.
  destruct (index (middlewares c) i σ) as [[f σ1]|] eqn:Hidx; [|done].
  apply index_inv in Hidx as [-> Hf]. specialize (Hf fs Hch).
  destruct f as [m|]; [|done].
  assert (Reentrant.call effect (Some m) h σ = Some (m h, σ)) as Hc1.
  { unfold Reentrant.call, bind.
    by rewrite (Hfs m (lookup_chain_elem fs i _ Hf) h σ). }
  assert (call (Some m) h σ = Some (m h, σ)) as Hc2 by done.
  rewrite (bind_eq _ _ _ _ _ Hc1), (bind_eq _ _ _ _ _ Hc2). apply IH.
Qed.

Lemma Reentrant_Method_quiet σ r c fs method pat h :
  contexts σ !! r = Some c → chain σ r = Some fs →
  (∀ m, Some m ∈ fs → Reentrant.quiet effect m) →
  Reentrant.Method effect r method pat h σ = Method r method pat h σ.
Proof.
  intros Hr Hch Hfs. unfold Reentrant.Method, Method.
  rewrite !(bind_eq _ _ _ _ _ (get_eq σ r c Hr)). unfold bind at 1 3.
  by rewrite (Reentrant_wrap_quiet σ r c fs Hr Hch Hfs).
Qed.

Lemma Reentrant_helper_Method helper verb r pat hf :
  (helper, verb) ∈ Reentrant.verb_helpers effect →
  helper r pat hf = Reentrant.Method effect r verb pat (HandlerFunc_Handler hf).
Proof.
  unfold Reentrant.verb_helpers. intros Hin.
  repeat (apply elem_of_cons in Hin as [Heq|Hin];
          [by injection Heq as -> ->|]).
  by apply elem_of_nil in Hin.
Qed.

(** C10: Method itself writes the one mux and nothing else: when the
    middlewares of the receiver's chain leave the heap as it is when they
    are called, a registration call (Method, MethodFunc or a per-verb
    helper) that returns has left every context and every backing array as
    it was, so the receiver's prefix and chain are the same, and has
    replaced the contents of the one mux the receiver points to by what one
    call of Handle made of them. *)
Theorem harmless_registration_leaves_receiver σ r fs pat (op : Go unit) u σ' :
  chain σ r = Some fs →
  (∀ m, Some m ∈ fs → Reentrant.harmless effect m) →
  Reentrant.registers effect r pat op → op σ = Some (u, σ') →
  contexts σ' = contexts σ ∧ arrays σ' = arrays σ ∧
  prefix σ' r = prefix σ r ∧ chain σ' r = chain σ r ∧
  ∃ c key g m m',
    contexts σ !! r = Some c ∧
    muxes σ !! ServeMux c = Some m ∧
    Handle key g m = Some m' ∧
    muxes σ' = <[ServeMux c := m']> (muxes σ).
Proof.
  intros Hch Hfs Hop Hrun.
  assert (∃ method h, op = Reentrant.Method effect r method pat h)
    as (method & h & ->).
  { destruct Hop as [method h|method hf|helper verb hf Hin]; [by eauto..|].
    eexists _, _. by apply Reentrant_helper_Method. }
  unfold Reentrant.Method in Hrun. unfold bind at 1 in Hrun.
  unfold get at 1 in Hrun.
  destruct (contexts σ !! r) as [c|] eqn:Hr; simpl in Hrun; [|done].
  unfold bind at 1 in Hrun.
  destruct (Reentrant.wrap effect r (len (middlewares c)) h σ)
    as [[g σ1]|] eqn:Hwrap; [|done].
  apply (Reentrant_wrap_harmless σ r c fs Hr Hch Hfs) in Hwrap as ->.
  rewrite (bind_eq _ _ _ _ _ (get_eq σ r c Hr)), method_key in Hrun.
  unfold mux_Handle in Hrun.
  destruct (muxes σ !! ServeMux c) as [m|] eqn:Hm; simpl in Hrun; [|done].
  destruct (Handle _ g m) as [m'|] eqn:HH; simpl in Hrun; [|done].
  injection Hrun as <- <-. simpl.
  split; [done|]. split; [done|].
  split; [unfold prefix; simpl; by rewrite Hr|].
  split; [unfold chain, elems_of; simpl; by rewrite Hr|].
  by exists c, (spec_key method (pattern c) pat), g, m, m'.
Qed.

(** X15: when the middlewares only wrap, middleware given to With or to Use
    before a registration does what wrapping the handler by hand does: the
    tables are those the receiver gets when the handler wrapped in the
    arguments is registered on it. *)
Theorem middleware_is_wrapping_by_hand σ r c old mws method pat h :
  wf σ → contexts σ !! r = Some c → chain σ r = Some old →
  (∀ m, Some m ∈ old ++ mws → Reentrant.quiet effect m) →
  tables ((nr <- With r mws ;; Reentrant.Method effect nr method pat h) σ)
  = (g ← apply_funcs mws h;
     tables (Reentrant.Method effect r method pat g σ)) ∧
  tables ((Use r mws ;;; Reentrant.Method effect r method pat h) σ)
  = (g ← apply_funcs mws h;
     tables (Reentrant.Method effect r method pat g σ)).
Proof.
  intros Hwf Hr Hch Hq.
  destruct (wrapping_by_hand σ r c mws method pat h Hwf Hr) as [HW HU].
  assert (∀ g, Reentrant.Method effect r method pat g σ = Method r method pat g σ)
    as Hr0.
  { intros g. apply (Reentrant_Method_quiet σ r c old); [done..|].
    intros m Hm. apply Hq, elem_of_app. by left. }
  assert ((g ← apply_funcs mws h;
           tables (Reentrant.Method effect r method pat g σ))
          = (g ← apply_funcs mws h; tables (Method r method pat g σ))) as ->.
  { destruct (apply_funcs mws h) as [g|]; [|done]. simpl. by rewrite Hr0. }
  split.
  - rewrite <- HW.
    destruct (With_chain σ r c old mws Hwf Hr Hch) as
      (nr & cn & σ' & HWith & _ & _ & Hcn & _ & _ & Hchn & _).
    rewrite !(bind_eq _ _ _ _ _ HWith).
    by rewrite (Reentrant_Method_quiet σ' nr cn (old ++ mws)).
  - rewrite <- HU.
    destruct (Use_chain σ r c old mws Hwf Hr Hch) as
      (σ' & c' & HUse & _ & Hr' & _ & _ & Hch' & _).
    rewrite !(bind_eq _ _ _ _ _ HUse).
    by rewrite (Reentrant_Method_quiet σ' r c' (old ++ mws)).
Qed.

End ReentrantProofs.

(** With middlewares that run nothing, this [Method] is the [Method] of the
    first part, on every heap. *)
Lemma Reentrant_Method_no_effect `{NetHTTP} r method pat h (σ : Heap) :
  Reentrant.Method (λ _ _, ret tt) r method pat h σ = Method r method pat h σ.
Proof.
  assert (∀ n g σ0, Reentrant.wrap (λ _ _, ret tt) r n g σ0 = wrap r n g σ0)
    as Hwrap.
  { induction n as [|i IH]; intros g σ0; simpl; [done|].
    unfold bind, Reentrant.call, call.
    destruct (get r σ0) as [[c σ1]|]; [|done].
    destruct (index (middlewares c) i σ1) as [[[m|] σ2]|]; [|done..].
    unfold bind, ret. apply IH. }
  unfold Reentrant.Method, Method, bind.
  destruct (get r σ) as [[c σ1]|]; [|done].
  by rewrite Hwrap.
Qed.

Section ReentrantWitnesses.
Import Demo ReentrantDemo.

(** C10 does not hold of every middleware: the one of this chain adds
    itself to the receiver when the registration calls it, so that Get
    returns with a chain of two where there was a chain of one. *)
Lemma reentrant_middleware_changes_chain :
  Reentrant.registers effect 0 "/x" (Reentrant.Get effect 0 "/x" handler) ∧
  chain heapE 0 = Some [Some evil] ∧
  Reentrant.Get effect 0 "/x" handler heapE = Some (tt, heapE') ∧
  chain heapE' 0 = Some [Some evil; Some evil] ∧
  chain heapE' 0 ≠ chain heapE 0.
Proof.
  split.
  { apply (@Reentrant.reg_helper http effect 0 "/x"
             (Reentrant.Get effect) "GET" handler).
    do 2 apply list_elem_of_further. apply list_elem_of_here. }
  split; [reflexivity|]. split; [reflexivity|]. split; [reflexivity|].
  discriminate.
Qed.

Lemma harmless_registration_leaves_receiver_witness :
  chain heap0 0 = Some [mw1; mw2] ∧
  (∀ m, Some m ∈ [mw1; mw2] → Reentrant.harmless no_effect m) ∧
  Reentrant.registers no_effect 0 "/x" (Reentrant.Get no_effect 0 "/x" handler) ∧
  Reentrant.Get no_effect 0 "/x" handler heap0 = Some (tt, heap1) ∧
  contexts heap1 = contexts heap0 ∧ arrays heap1 = arrays heap0 ∧
  prefix heap1 0 = prefix heap0 0 ∧ chain heap1 0 = chain heap0 0.
Proof.
  assert (∀ m, Some m ∈ [mw1; mw2] → Reentrant.harmless no_effect m) as Hq.
  { intros m _ h σ u σ' Heq. unfold no_effect, ret in Heq. congruence. }
  assert (Reentrant.registers no_effect 0 "/x"
            (Reentrant.Get no_effect 0 "/x" handler)) as Hreg.
  { apply (@Reentrant.reg_helper http no_effect 0 "/x"
             (Reentrant.Get no_effect) "GET" handler).
    do 2 apply list_elem_of_further. apply list_elem_of_here. }
  assert (Reentrant.Get no_effect 0 "/x" handler heap0 = Some (tt, heap1))
    as Hrun by reflexivity.
  split; [reflexivity|]. split; [exact Hq|]. split; [exact Hreg|].
  split; [exact Hrun|].
  destruct (harmless_registration_leaves_receiver no_effect heap0 0 [mw1; mw2]
              "/x" (Reentrant.Get no_effect 0 "/x" handler) tt heap1
              eq_refl Hq Hreg Hrun) as (Hc & Ha & Hp & Hch & _).
  split; [exact Hc|]. split; [exact Ha|]. split; [exact Hp|exact Hch].
Defined.

Lemma middleware_is_wrapping_by_hand_witness :
  wf heap0 ∧ contexts heap0 !! 0 = Some root ∧
  chain heap0 0 = Some [mw1; mw2] ∧
  (∀ m, Some m ∈ [mw1; mw2] ++ [mw1] → Reentrant.quiet no_effect m) ∧
  tables ((nr <- With 0 [mw1] ;;
           Reentrant.Method no_effect nr "GET" "/x" handler) heap0)
  = tables (Reentrant.Method no_effect 0 "GET" "/x" (k1 handler) heap0).
Proof.
  assert (wf heap0) as Hwf.
  { apply (bool_decide_unpack _). vm_compute. exact I. }
  assert (∀ m, Some m ∈ [mw1; mw2] ++ [mw1] → Reentrant.quiet no_effect m)
    as Hq.
  { intros m _ h σ. reflexivity. }
  split; [exact Hwf|]. split; [reflexivity|]. split; [reflexivity|].
  split; [exact Hq|].
  exact (proj1 (middleware_is_wrapping_by_hand no_effect heap0 0 root
                  [mw1; mw2] [mw1] "GET" "/x" handler
                  Hwf eq_refl eq_refl Hq)).
Defined.

End ReentrantWitnesses.
